(** * Text preprocessing and n-gram frequencies: a shallow embedding

    The development follows [starter_preprocess.py]: the two classes
    [TextPreprocessor] and [FrequencyAnalyzer] become two modules of pure
    functions over Python values.

    - A Python [str] is a list of Unicode code points ([text]).
    - A Python [dict] is an insertion-ordered association list with unique
      keys ([dict]); [dict_set] overwrites in place or appends, as CPython.
    - Exceptions are values of a small result type.
    - The file system touched by [save_frequencies] / [load_frequencies] is
      an explicit state, with the errors of [open] and of the encoder.
    - A [float] is an IEEE 754 binary64 number with rounding to nearest,
      ties to even; the conversion of an integer that is too large raises
      [OverflowError] and the division by zero [ZeroDivisionError]. *)

From Stdlib Require Import List Bool Arith NArith ZArith QArith Lia.
From Stdlib Require Import String Ascii Sorted Permutation SpecFloat.
Import ListNotations.

Close Scope Q_scope.

Set Implicit Arguments.

(* ================================================================== *)
(** * Python values *)
(* ================================================================== *)

Module Py.

(** A character is a Unicode code point, a string is a sequence of them. *)
Definition char := N.
Definition text := list char.

(** String literals of the development are ASCII. *)
Definition str (s : string) : text :=
  List.map N_of_ascii (list_ascii_of_string s).

Definition text_eq_dec : forall a b : text, {a = b} + {a <> b} :=
  list_eq_dec N.eq_dec.

Definition c_space : char := 32%N.
Definition c_bang : char := 33%N.
Definition c_dquote : char := 34%N.
Definition c_apos : char := 39%N.
Definition c_hyphen : char := 45%N.
Definition c_dot : char := 46%N.
Definition c_qmark : char := 63%N.
Definition c_underscore : char := 95%N.
Definition c_pipe : char := 124%N.
Definition c_lsquote : char := 8216%N.   (* U+2018 *)
Definition c_rsquote : char := 8217%N.   (* U+2019 *)
Definition c_endash : char := 8211%N.    (* U+2013 *)
Definition c_emdash : char := 8212%N.    (* U+2014 *)

(** [str.isspace] on one code point, which is also the class [\s] of a
    [str] pattern: CPython's [_PyUnicode_IsWhitespace]. *)
Definition is_space (c : char) : bool :=
  ((9 <=? c) && (c <=? 13) || (28 <=? c) && (c <=? 32)
   || (c =? 133) || (c =? 160) || (c =? 5760)
   || (8192 <=? c) && (c <=? 8202)
   || (c =? 8232) || (c =? 8233) || (c =? 8239) || (c =? 8287)
   || (c =? 12288))%N.

(** The sentence terminators of the class [[.!?]]. *)
Definition is_terminator (c : char) : bool :=
  ((c =? c_dot) || (c =? c_bang) || (c =? c_qmark))%N.

(** The parts of the Unicode character database that the code reaches
    through [str.lower] and the class [\w]; the database is not part of the
    repository, so the functions that use it take it as an argument. *)
Record unicode := {
  is_alnum : char -> bool;      (* str.isalnum on one code point *)
  lower : text -> text          (* str.lower *)
}.

(** [\w] of a [str] pattern: alphanumeric or the underscore. *)
Definition is_word (U : unicode) (c : char) : bool :=
  is_alnum U c || (c =? c_underscore)%N.

(** The database restricted to ASCII: it agrees with CPython on every text
    whose code points are below 128 and treats the other code points as
    uncased, non-alphanumeric characters. *)
Definition ascii_is_alnum (c : char) : bool :=
  ((48 <=? c) && (c <=? 57) || (65 <=? c) && (c <=? 90)
   || (97 <=? c) && (c <=? 122))%N.

Definition ascii_lower_char (c : char) : char :=
  if ((65 <=? c) && (c <=? 90))%N then (c + 32)%N else c.

Definition ascii_unicode : unicode :=
  {| is_alnum := ascii_is_alnum; lower := List.map ascii_lower_char |}.

(** ** Strings *)

Fixpoint drop_while (p : char -> bool) (s : text) : text :=
  match s with
  | [] => []
  | c :: s' => if p c then drop_while p s' else s
  end.

(** [s.strip()] *)
Definition strip (s : text) : text :=
  rev (drop_while is_space (rev (drop_while is_space s))).

(** [s.startswith(p)] *)
Fixpoint startswith (p s : text) : bool :=
  match p, s with
  | [], _ => true
  | _ :: _, [] => false
  | a :: p', b :: s' => (a =? b)%N && startswith p' s'
  end.

(** [sub in s] *)
Fixpoint contains (sub s : text) : bool :=
  startswith sub s ||
  match s with
  | [] => false
  | _ :: s' => contains sub s'
  end.

(** [s.endswith((c1, c2, ...))] for one-character suffixes. *)
Definition ends_with_any (cs : list char) (s : text) : bool :=
  match rev s with
  | [] => false
  | c :: _ => existsb (N.eqb c) cs
  end.

(** [sep.join(parts)] *)
Fixpoint join (sep : text) (parts : list text) : text :=
  match parts with
  | [] => []
  | [p] => p
  | p :: rest => p ++ sep ++ join sep rest
  end.

(** [s.split(sep)] for a non-empty separator: cut at the leftmost
    occurrence, resume after it.  [skip] counts the characters of a matched
    separator still to be consumed, [cur] is the current piece, reversed. *)
Fixpoint split_from (sep : text) (skip : nat) (cur : text) (s : text)
  : list text :=
  match s with
  | [] => [rev cur]
  | c :: s' =>
      match skip with
      | S k => split_from sep k cur s'
      | O =>
          if startswith sep s
          then rev cur :: split_from sep (List.length sep - 1) [] s'
          else split_from sep 0 (c :: cur) s'
      end
  end.

Definition split (sep : text) (s : text) : list text :=
  split_from sep 0 [] s.

(** [s.split()]: the maximal runs of non-whitespace characters. *)
Fixpoint split_ws_from (cur : text) (s : text) : list text :=
  match s with
  | [] => match cur with [] => [] | _ => [rev cur] end
  | c :: s' =>
      if is_space c
      then match cur with
           | [] => split_ws_from [] s'
           | _ => rev cur :: split_ws_from [] s'
           end
      else split_ws_from (c :: cur) s'
  end.

Definition split_ws (s : text) : list text := split_ws_from [] s.

(** The substitution of every maximal run of \s characters by one space;
    [in_run] tells whether the previous character belonged to the run
    being replaced. *)
Fixpoint collapse_from (in_run : bool) (s : text) : text :=
  match s with
  | [] => []
  | c :: s' =>
      if is_space c
      then if in_run then collapse_from true s'
           else c_space :: collapse_from true s'
      else c :: collapse_from false s'
  end.

Definition collapse_ws (s : text) : text := collapse_from false s.

(** [re.split] on one or more terminators: the pieces between maximal
    runs of terminators, empty pieces at both ends included. *)
Fixpoint re_split_from (in_run : bool) (cur : text) (s : text) : list text :=
  match s with
  | [] => [rev cur]
  | c :: s' =>
      if is_terminator c
      then if in_run then re_split_from true cur s'
           else rev cur :: re_split_from true [] s'
      else re_split_from false (c :: cur) s'
  end.

Definition re_split_terminators (s : text) : list text :=
  re_split_from false [] s.

(** ** Sequences *)

(** An index of a slice brought into [0 .. len], negative ones counted
    from the end. *)
Definition clamp_index (len i : Z) : Z :=
  if (i <? 0)%Z then Z.max 0 (i + len) else Z.min i len.

(** [l[i:j]] *)
Definition slice {A} (l : list A) (i j : Z) : list A :=
  let len := Z.of_nat (List.length l) in
  let a := clamp_index len i in
  let b := clamp_index len j in
  firstn (Z.to_nat (b - a)) (skipn (Z.to_nat a) l).

(** [l[:j]] *)
Definition slice_to {A} (l : list A) (j : Z) : list A := slice l 0 j.

(** [range(k)] *)
Definition range (k : Z) : list Z := List.map Z.of_nat (seq 0 (Z.to_nat k)).

(** [sum(xs)] over integers. *)
Definition sum (xs : list Z) : Z := fold_left Z.add xs 0%Z.


(** ** Dictionaries *)

Section Dict.
Variables K V : Type.
Variable K_eq_dec : forall a b : K, {a = b} + {a <> b}.

Definition dict := list (K * V).

(** [d.get(k)] *)
Fixpoint dict_get (d : dict) (k : K) : option V :=
  match d with
  | [] => None
  | (k', v') :: d' => if K_eq_dec k k' then Some v' else dict_get d' k
  end.

(** [d[k] = v]: an existing key keeps its place, a new one goes last. *)
Fixpoint dict_set (d : dict) (k : K) (v : V) : dict :=
  match d with
  | [] => [(k, v)]
  | (k', v') :: d' =>
      if K_eq_dec k k' then (k', v) :: d' else (k', v') :: dict_set d' k v
  end.

Definition keys (d : dict) : list K := List.map fst d.
Definition values (d : dict) : list V := List.map snd d.
End Dict.

(** [Counter(xs)]: one pass, [c[x] = c.get(x, 0) + 1]. *)
Section Counter.
Variable K : Type.
Variable K_eq_dec : forall a b : K, {a = b} + {a <> b}.

Definition counter_add (c : dict K Z) (x : K) : dict K Z :=
  dict_set K_eq_dec c x
    (match dict_get K_eq_dec c x with Some n => n | None => 0 end + 1)%Z.

Definition Counter (xs : list K) : dict K Z := fold_left counter_add xs [].

(** [sorted(items, key=itemgetter(1), reverse=True)]: a stable sort by
    descending count; an item goes after the items that count more. *)
Fixpoint insert_desc (x : K * Z) (l : list (K * Z)) : list (K * Z) :=
  match l with
  | [] => [x]
  | y :: l' =>
      if (snd x <? snd y)%Z then y :: insert_desc x l' else x :: l
  end.

Definition sort_desc (l : list (K * Z)) : list (K * Z) :=
  fold_right insert_desc [] l.

(** [c.most_common(n)], that is [heapq.nlargest(n, c.items(), key=count)],
    which the library documents as the first [n] items of
    [sorted(items, key=count, reverse=True)]. *)
Definition most_common (n : nat) (c : dict K Z) : list (K * Z) :=
  firstn n (sort_desc c).
End Counter.

(** ** Exceptions *)

(** The exceptions the modelled code can raise: [ZeroDivisionError] and
    [OverflowError] from the arithmetic, [FileNotFoundError] and [OSError]
    from [open], [UnicodeEncodeError] and [ValueError] from [json.dump],
    [JSONDecodeError] and [ValueError] from [json.load].
    [EmptyDistributionError] and [SerializationError] are named by the
    design document only; no code path raises them. *)
Inductive exn :=
| ZeroDivisionError
| FileNotFoundError
| EmptyDistributionError
| SerializationError
| OverflowError
| OSError
| UnicodeEncodeError
| ValueError
| JSONDecodeError.

Inductive result (A : Type) :=
| Return (a : A)
| Raise (e : exn).
Arguments Return {A} a.
Arguments Raise {A} e.

Definition bind {A B} (r : result A) (k : A -> result B) : result B :=
  match r with
  | Return a => k a
  | Raise e => Raise e
  end.

(** ** Floating-point numbers *)

(** A [float] is a binary64 number: 53 bits of precision, infinities at
    exponent 1024. *)
Definition float := spec_float.
Definition prec : Z := 53%Z.
Definition emax : Z := 1024%Z.

(** [x + y] and [x * y] on floats: they round to nearest, overflow to an
    infinity and never raise. *)
Definition fadd (x y : float) : float := SFadd prec emax x y.
Definition fmul (x y : float) : float := SFmul prec emax x y.

(** [x == 0], for the zeros of both signs. *)
Definition is_zero (x : float) : bool :=
  match x with
  | S754_zero _ => true
  | _ => false
  end.

Definition is_finite (x : float) : bool :=
  match x with
  | S754_zero _ | S754_finite _ _ _ => true
  | _ => false
  end.

(** [x / y] on floats: a zero divisor raises, every other divisor, an
    infinity or a NaN too, gives the IEEE quotient. *)
Definition fdiv (x y : float) : result float :=
  if is_zero y then Raise ZeroDivisionError
  else Return (SFdiv prec emax x y).

(** The conversion of an integer operand of a float operation: the
    nearest float, ties to even, and [OverflowError] when that is not a
    finite number. *)
Definition float_of_int (n : Z) : result float :=
  match binary_normalize prec emax n 0%Z false with
  | S754_zero s => Return (S754_zero s)
  | S754_finite s m e => Return (S754_finite s m e)
  | _ => Raise OverflowError
  end.

End Py.

Notation "x <- r ;; k" := (Py.bind r (fun x => k))
  (at level 61, r at next level, right associativity).

(* ================================================================== *)
(** * class TextPreprocessor *)
(* ================================================================== *)

Module TextPreprocessor.
Import Py.

Section WithUnicode.
Variable U : unicode.

(** The first substitution of the quote standardization: its class
    holds the straight double quote (U+0022) twice in the source file,
    and the replacement is that same character. *)
Definition standardize_dquotes (s : text) : text :=
  List.map (fun c => if ((c =? c_dquote) || (c =? c_dquote))%N
                     then c_dquote else c) s.

(** The second one: U+2018 and U+2019 become the apostrophe. *)
Definition standardize_squotes (s : text) : text :=
  List.map (fun c => if ((c =? c_lsquote) || (c =? c_rsquote))%N
                     then c_apos else c) s.

(** The dashes: U+2014 and U+2013 become the hyphen-minus. *)
Definition standardize_dashes (s : text) : text :=
  List.map (fun c => if ((c =? c_emdash) || (c =? c_endash))%N
                     then c_hyphen else c) s.

(** The characters kept when [preserve_sentences] is true: the source
    class lists \w, \s, the three terminators, the apostrophe and the
    hyphen-minus, and is negated. *)
Definition kept (c : char) : bool :=
  is_word U c || is_space c
  || (c =? c_dot)%N || (c =? c_bang)%N || (c =? c_qmark)%N
  || (c =? c_apos)%N || (c =? c_hyphen)%N.

(** The substitution of every character outside that class by one
    space. *)
Definition blank_punctuation (s : text) : text :=
  List.map (fun c => if kept c then c else c_space) s.

Definition is_word_opt (o : option char) : bool :=
  match o with
  | Some c => is_word U c
  | None => false
  end.

(** The substitution of the other branch.  Its pattern has two
    alternatives: an apostrophe with no \w character before it
    (negative look-behind) and none after it (negative look-ahead), or
    any character that is neither \w nor \s.  Every match is one
    character and is replaced by one space; [prev] is the character
    before the current position in the subject, which is what the
    look-behind inspects. *)
Fixpoint blank_nonword (prev : option char) (s : text) : text :=
  match s with
  | [] => []
  | c :: s' =>
      let stray_apostrophe :=
        (c =? c_apos)%N && negb (is_word_opt prev)
        && negb (is_word_opt (hd_error s')) in
      let other := negb (is_word U c || is_space c) in
      (if stray_apostrophe || other then c_space else c)
      :: blank_nonword (Some c) s'
  end.

(** The text as it stands in [normalize_text] after the lowercasing and
    the standardization of quotes and dashes, before the punctuation is
    replaced. *)
Definition standardized (s : text) : text :=
  standardize_dashes (standardize_squotes (standardize_dquotes (lower U s))).

Definition normalize_text (s : text) (preserve_sentences : bool) : text :=
  let s := lower U s in
  let s := standardize_dquotes s in
  let s := standardize_squotes s in
  let s := standardize_dashes s in
  let s := if preserve_sentences
           then blank_punctuation s
           else blank_nonword None s in
  let s := collapse_ws s in
  strip s.

(** [clean_text]: the characters that are neither \w nor \s are deleted,
    every run of whitespace becomes one space, and the text is stripped.
    Its handler of [re.error] is not reached: both patterns are constants
    that compile. *)
Definition clean_text (s : text) : text :=
  let s := filter (fun c => is_word U c || is_space c) s in
  let s := collapse_ws s in
  strip s.
End WithUnicode.

Definition nonempty (s : text) : bool :=
  match s with [] => false | _ => true end.

Definition tokenize_sentences (s : text) : list text :=
  List.map strip
    (filter (fun p => nonempty (strip p)) (re_split_terminators s)).

Definition tokenize_words (s : text) : list text :=
  let text_for_words := filter (fun c => negb (is_terminator c)) s in
  filter nonempty (split_ws text_for_words).

(** A character becomes a string of length one, as [list(text)] does. *)
Definition chars (s : text) : list text := List.map (fun c => [c]) s.

Definition tokenize_chars (s : text) (include_space : bool) : list text :=
  if include_space
  then
    let s := collapse_ws s in
    chars s
  else chars (filter (fun c => negb (c =? c_space)%N) s).

Definition get_sentence_lengths (sentences : list text) : list nat :=
  List.map (fun sent => List.length (tokenize_words sent)) sentences.

(** The dictionary returned by [get_text_statistics], without its two
    rounded [float] averages. *)
Record statistics := {
  total_characters : nat;
  total_words : nat;
  total_sentences : nat;
  most_common_words : list (text * Z)
}.

Definition get_text_statistics (s : text) : statistics :=
  let words := tokenize_words s in
  let sentences := tokenize_sentences s in
  let word_counts := Counter text_eq_dec words in
  {| total_characters := List.length s;
     total_words := List.length words;
     total_sentences := List.length sentences;
     most_common_words := most_common 10 word_counts |}.

Definition create_summary (s : text) (num_sentences : Z) : text :=
  let sentences := tokenize_sentences s in
  match sentences with
  | [] => []
  | _ =>
      let summary_sentences := slice_to sentences num_sentences in
      let summary := join (str ". ") summary_sentences in
      if ends_with_any [c_dot; c_bang; c_qmark] summary
      then summary
      else summary ++ [c_dot]
  end.

End TextPreprocessor.

(* ================================================================== *)
(** * class FrequencyAnalyzer *)
(* ================================================================== *)

Module FrequencyAnalyzer.
Import Py.

(** A key of a frequency table: a token, or a tuple of tokens. *)
Inductive key :=
| KStr (s : text)
| KTup (ts : list text).

Definition key_eq_dec : forall a b : key, {a = b} + {a <> b}.
Proof.
  decide equality; first [ apply text_eq_dec | apply (list_eq_dec text_eq_dec) ].
Defined.

Definition delimiter : text := str "||".

Definition calculate_ngrams (tokens : list text) (n : Z) : dict key Z :=
  if (n =? 1)%Z
  then Counter key_eq_dec (List.map KStr tokens)
  else
    let ngrams :=
      List.map (fun i => KTup (slice tokens i (i + n)))
               (range (Z.of_nat (List.length tokens) - n + 1)) in
    Counter key_eq_dec ngrams.

(** The loop of [calculate_probabilities]; [probabilities] is the
    dictionary built so far.  [count + smoothing] converts the count. *)
Fixpoint probabilities_loop (items : list (key * Z)) (smoothing total : float)
    (probabilities : dict key float) : result (dict key float) :=
  match items with
  | [] => Return probabilities
  | (ngram, count) :: rest =>
      c <- float_of_int count ;;
      p <- fdiv (fadd c smoothing) total ;;
      probabilities_loop rest smoothing total
        (dict_set key_eq_dec probabilities ngram p)
  end.

(** In [total] the sum of the counts is an exact integer; the product
    converts the length, then the sum converts the integer. *)
Definition calculate_probabilities (ngram_counts : dict key Z)
    (smoothing : float) : result (dict key float) :=
  let counted := sum (values ngram_counts) in
  n <- float_of_int (Z.of_nat (List.length ngram_counts)) ;;
  s <- float_of_int counted ;;
  let total := fadd s (fmul smoothing n) in
  probabilities_loop ngram_counts smoothing total [].

(** ** Persistence *)

(** A JSON object with string keys and integer values, the pairs in the
    order written.  The textual encoding is the [json] library's and is
    not modelled: what [json.dump] has written in full, [json.load] reads
    back. *)
Definition json_object := dict text Z.

(** A surrogate code point has no UTF-8 encoding: writing it to the file
    raises [UnicodeEncodeError]. *)
Definition is_surrogate (c : char) : bool :=
  ((55296 <=? c) && (c <=? 57343))%N.

Definition encodable (s : text) : bool :=
  forallb (fun c => negb (is_surrogate c)) s.

(** An integer of more than 4300 decimal digits is neither printed nor
    parsed: the conversion raises [ValueError] (the default limit of
    CPython 3.11 and later). *)
Definition printable (v : Z) : bool := (Z.abs v <? 10 ^ 4300)%Z.

(** What a file holds: a complete object, or the beginning of one, left
    by a [json.dump] that raised. *)
Inductive file_content :=
| JsonObject (o : json_object)
| Truncated.

(** Why [open] refuses a name: the system does (a directory, a missing
    parent directory, no permission), the name holds a null character, or
    the name cannot be encoded for the system. *)
Inductive refusal := Unavailable | EmbeddedNull | Unencodable.

Definition open_error (r : refusal) : exn :=
  match r with
  | Unavailable => OSError
  | EmbeddedNull => ValueError
  | Unencodable => UnicodeEncodeError
  end.

(** What a name designates: nothing yet (opening it for writing creates
    the file), something [open] refuses, or a file that can be read and
    written. *)
Inductive entry :=
| Absent
| Refused (r : refusal)
| Regular (c : file_content).

Definition filesystem := text -> entry.

Definition write_file (filename : text) (c : file_content) (fs : filesystem)
  : filesystem :=
  fun f => if text_eq_dec f filename then Regular c else fs f.

(** [json.dump] writes the pairs in order, the key before the value; it
    stops at the first key that cannot be encoded or value that cannot be
    printed. *)
Fixpoint dump (o : json_object) : result unit :=
  match o with
  | [] => Return tt
  | (k, v) :: rest =>
      if negb (encodable k) then Raise UnicodeEncodeError
      else if negb (printable v) then Raise ValueError
      else dump rest
  end.

(** The dictionary [json_friendly] built by the loop of
    [save_frequencies]. *)
Definition encode_key (k : key) : text :=
  match k with
  | KTup ts => join delimiter ts
  | KStr s => s
  end.

Definition json_friendly (frequencies : dict key Z) : json_object :=
  fold_left (fun acc kv => dict_set text_eq_dec acc (encode_key (fst kv)) (snd kv))
            frequencies [].

(** [open] truncates the file before [json.dump] runs: a dump that
    raises leaves the beginning of the object. *)
Definition save_frequencies (frequencies : dict key Z) (filename : text)
    (fs : filesystem) : result unit * filesystem :=
  match fs filename with
  | Refused r => (Raise (open_error r), fs)
  | _ =>
      match dump (json_friendly frequencies) with
      | Return _ =>
          (Return tt,
           write_file filename (JsonObject (json_friendly frequencies)) fs)
      | Raise e => (Raise e, write_file filename Truncated fs)
      end
  end.

Definition decode_key (k : text) : key :=
  if contains delimiter k then KTup (split delimiter k) else KStr k.

Definition decode_object (json_data : json_object) : dict key Z :=
  fold_left (fun acc kv => dict_set key_eq_dec acc (decode_key (fst kv)) (snd kv))
            json_data [].

Definition load_frequencies (filename : text) (fs : filesystem)
  : result (dict key Z) * filesystem :=
  match fs filename with
  | Absent => (Raise FileNotFoundError, fs)
  | Refused r => (Raise (open_error r), fs)
  | Regular Truncated => (Raise JSONDecodeError, fs)
  | Regular (JsonObject json_data) =>
      if forallb printable (values json_data)
      then (Return (decode_object json_data), fs)
      else (Raise ValueError, fs)
  end.

End FrequencyAnalyzer.

Unset Implicit Arguments.

(* ================================================================== *)
(** * What is assumed of the Unicode database *)
(* ================================================================== *)

Module Database.
Import Py.

(** The facts about [str.lower] and [str.isalnum] that the proofs on
    [normalize_text] rest on: a character produced by [lower] is itself
    unchanged by [lower]; a text of such characters is unchanged (the one
    contextual rule of [lower], on the capital sigma, concerns a character
    that is changed); the space, the apostrophe and the hyphen-minus are
    uncased; the apostrophe is not alphanumeric. *)
Record lawful (U : unicode) : Prop := {
  lower_output_fixed :
    forall (t : text) (c : char), In c (lower U t) -> lower U [c] = [c];
  lower_fixed_text :
    forall t : text, (forall c, In c t -> lower U [c] = [c]) -> lower U t = t;
  lower_space : lower U [c_space] = [c_space];
  lower_apos : lower U [c_apos] = [c_apos];
  lower_hyphen : lower U [c_hyphen] = [c_hyphen];
  apos_not_alnum : is_alnum U c_apos = false
}.

End Database.

(* ================================================================== *)
(** * The order of a ranking *)
(* ================================================================== *)

Module Ranking.
Import Py.

Section Rank.
Variable K : Type.
Variable K_eq_dec : forall a b : K, {a = b} + {a <> b}.

(** The position of the first occurrence of [x] in [xs], the length of
    [xs] when there is none. *)
Fixpoint first_index (x : K) (xs : list K) : nat :=
  match xs with
  | [] => 0
  | y :: xs' => if K_eq_dec x y then 0 else S (first_index x xs')
  end.

(** Item [a] goes before item [b]: it counts more, or it counts the same
    and first occurs earlier in [xs]. *)
Definition ranks_before (xs : list K) (a b : K * Z) : Prop :=
  (snd b < snd a)%Z
  \/ (snd a = snd b
      /\ (first_index (fst a) xs < first_index (fst b) xs)%nat).
End Rank.

End Ranking.

(* ================================================================== *)
(** * Example inputs *)
(* ================================================================== *)

Module Examples.
Import Py FrequencyAnalyzer.

Definition abab : list text := [str "a"; str "b"; str "a"; str "b"].

(** No file has been written yet. *)
Definition empty_fs : filesystem := fun _ => Absent.

Definition out_json : text := str "out.json".

(** A table with one key of count zero. *)
Definition zero_table : dict key Z := [(KStr (str "a"), 0%Z)].


(** A tuple key of one token. *)
Definition singleton_table : dict key Z := [(KTup [str "a"], 1%Z)].


(** A text with capitals, a dash, an apostrophe and other punctuation. *)
Definition greeting : text := str "Hello,  World--it's a (small) test! ".

(** The text of the fifth scenario of the design document. *)
Definition cat_text : text := str "the cat sat on the mat. the cat ran.".

(** Two sentences that end with a bang and a question mark. *)
Definition hi_bye : text := str "Hi there! Bye now?".

(** A line with a tab and two consecutive spaces. *)
Definition spaced : text := [97; 9; 98; 32; 32; 99]%N.

(** Three sentences. *)
Definition three_sentences : text := str "a. b. c.".



(** A table in which a bigram and a scalar key are written under one
    name. *)
Definition colliding_table : dict key Z :=
  [(KTup [str "a"; str "b"], 1%Z); (KStr (str "a||b"), 5%Z)].



(** One word seen once and another three times. *)
Definition quarter_table : dict key Z :=
  [(KStr (str "a"), 1%Z); (KStr (str "b"), 3%Z)].

(** A table with a token that is a lone surrogate, U+D800. *)
Definition surrogate_table : dict key Z :=
  [(KStr (str "a"), 1%Z); (KStr [55296%N], 2%Z)].


End Examples.

(* ================================================================== *)
(** * Keys that survive the file format *)
(* ================================================================== *)

Module Roundtrip.
Import Py FrequencyAnalyzer.

(** The token has no occurrence of the delimiter. *)
Definition delimiter_free (t : text) : bool := negb (contains delimiter t).

(** The last character of the token is a bar. *)
Fixpoint ends_with_bar (t : text) : bool :=
  match t with
  | [] => false
  | [c] => (c_pipe =? c)%N
  | _ :: t' => ends_with_bar t'
  end.

(** The keys the format represents: a delimiter-free token, or a tuple of
    at least two delimiter-free tokens of which only the last may end with
    a bar. *)
Definition representable (k : key) : bool :=
  match k with
  | KStr s => delimiter_free s
  | KTup ts =>
      (2 <=? List.length ts)%nat
      && forallb delimiter_free ts
      && forallb (fun t => negb (ends_with_bar t)) (removelast ts)
  end.





End Roundtrip.

(* ================================================================== *)
(** * The documented normalization of probabilities *)
(* ================================================================== *)

Module Normalization.
Import Py FrequencyAnalyzer.





(** The documented check: the sum of the values, added from the left as
    [sum] does, is within [1e-9] of [1.0]. *)
Definition float_sum (xs : list float) : float :=
  fold_left fadd xs (S754_zero false).

Definition one : float := S754_finite false 4503599627370496 (-52).

(** [1e-9], the nearest float. *)
Definition tolerance : float := S754_finite false 4835703278458517 (-82).

Definition within_tolerance (x : float) : bool :=
  SFleb (SFabs (SFsub prec emax x one)) tolerance.


End Normalization.

(* ================================================================== *)
(** * Windows of tokens *)
(* ================================================================== *)

Module Windows.
Import Py FrequencyAnalyzer Roundtrip.

(** The window of [n] tokens that starts at position [i]. *)
Definition window (tokens : list text) (n i : nat) : list text :=
  firstn n (skipn i tokens).

(** The windows of [n] tokens, from left to right: one per position
    [0 .. length tokens - n]. *)
Definition windows (tokens : list text) (n : nat) : list (list text) :=
  List.map (window tokens n) (seq 0 (List.length tokens + 1 - n)).

Definition window_eq_dec : forall a b : list text, {a = b} + {a <> b} :=
  list_eq_dec text_eq_dec.


End Windows.

(* ================================================================== *)
(** * Lemmas on Python values *)
(* ================================================================== *)

Module PyFacts.
Import Py.

Lemma fold_add_shift (xs : list Z) (a : Z) :
  fold_left Z.add xs a = (a + fold_left Z.add xs 0)%Z.
Proof.
  revert a; induction xs as [|x xs IH]; intros a; simpl.
  - lia.
  - rewrite IH, (IH x). lia.
Qed.

Lemma sum_cons (x : Z) (xs : list Z) : sum (x :: xs) = (x + sum xs)%Z.
Proof. unfold sum; simpl. now rewrite fold_add_shift. Qed.

Lemma sum_nil : sum [] = 0%Z.
Proof. reflexivity. Qed.

Section DictFacts.
Variable K : Type.
Variable K_eq_dec : forall a b : K, {a = b} + {a <> b}.

Lemma dict_set_sum (d : dict K Z) (k : K) (v : Z) :
  sum (values (dict_set K_eq_dec d k v))
  = (sum (values d) + v
     - match dict_get K_eq_dec d k with Some o => o | None => 0 end)%Z.
Proof.
  unfold values.
  induction d as [|[k' v'] d IH]; simpl.
  - rewrite sum_cons, sum_nil. lia.
  - destruct (K_eq_dec k k'); simpl; rewrite !sum_cons.
    + lia.
    + rewrite IH. lia.
Qed.

Lemma counter_add_sum (c : dict K Z) (x : K) :
  sum (values (counter_add K_eq_dec c x)) = (sum (values c) + 1)%Z.
Proof. unfold counter_add. rewrite dict_set_sum. lia. Qed.

Lemma counter_fold_sum (xs : list K) (c : dict K Z) :
  sum (values (fold_left (counter_add K_eq_dec) xs c))
  = (sum (values c) + Z.of_nat (List.length xs))%Z.
Proof.
  revert c; induction xs as [|x xs IH]; intros c; simpl List.length; simpl fold_left.
  - lia.
  - rewrite IH, counter_add_sum. lia.
Qed.

(** A counter holds one unit per element counted. *)
Lemma Counter_sum (xs : list K) :
  sum (values (Counter K_eq_dec xs)) = Z.of_nat (List.length xs).
Proof. unfold Counter. now rewrite counter_fold_sum. Qed.
End DictFacts.

Section DictSet.
Variables K V : Type.
Variable K_eq_dec : forall a b : K, {a = b} + {a <> b}.


Lemma dict_set_keys (d : dict K V) (k : K) (v : V) (x : K) :
  In x (keys (dict_set K_eq_dec d k v)) <-> x = k \/ In x (keys d).
Proof.
  induction d as [|[k' v'] d IH]; simpl.
  - intuition congruence.
  - destruct (K_eq_dec k k') as [->|Hne]; simpl.
    + intuition congruence.
    + unfold keys in IH. rewrite IH. intuition congruence.
Qed.

End DictSet.

Lemma firstn_In {A} (n : nat) (l : list A) (x : A) :
  In x (firstn n l) -> In x l.
Proof.
  revert l; induction n as [|n IH]; intros [|y l]; simpl; try tauto.
  intros [H|H]; [now left | right; now apply IH].
Qed.

Lemma range_length (k : Z) : List.length (range k) = Z.to_nat k.
Proof. unfold range. now rewrite length_map, length_seq. Qed.

End PyFacts.

(* ================================================================== *)
(** * FrequencyAnalyzer: counts and probabilities *)
(* ================================================================== *)

Module NgramFacts.
Import Py PyFacts FrequencyAnalyzer Examples.

(** C4. For a token sequence of length [L] and [1 <= n]: when [n <= L] the
    values of [calculate_ngrams tokens n] sum to [L - n + 1], the number of
    windows; when [n > L] the table is empty. *)
Theorem calculate_ngrams_conservation (tokens : list text) (n : Z) :
  (1 <= n)%Z ->
  ((n <= Z.of_nat (List.length tokens))%Z ->
   sum (values (calculate_ngrams tokens n))
   = (Z.of_nat (List.length tokens) - n + 1)%Z)
  /\ ((Z.of_nat (List.length tokens) < n)%Z ->
      calculate_ngrams tokens n = []).
Proof.
  intros Hn. unfold calculate_ngrams. split; intros HL.
  - destruct (Z.eqb_spec n 1) as [->|Hne].
    + rewrite Counter_sum, length_map. lia.
    + rewrite Counter_sum, length_map, range_length. lia.
  - destruct (Z.eqb_spec n 1) as [->|Hne].
    + destruct tokens as [|t tokens]; [reflexivity|].
      simpl List.length in HL. lia.
    + unfold range.
      replace (Z.to_nat (Z.of_nat (List.length tokens) - n + 1)) with 0%nat by lia.
      reflexivity.
Qed.

Lemma calculate_ngrams_conservation_witness :
  (1 <= 2)%Z
  /\ (((2 <= Z.of_nat (List.length abab))%Z ->
       sum (values (calculate_ngrams abab 2))
       = (Z.of_nat (List.length abab) - 2 + 1)%Z)
      /\ ((Z.of_nat (List.length abab) < 2)%Z ->
          calculate_ngrams abab 2 = [])).
Proof.
  split; [lia | apply (calculate_ngrams_conservation abab 2); lia].
Defined.

Lemma float_of_int_finite (n : Z) (x : float) :
  float_of_int n = Return x -> is_finite x = true.
Proof.
  unfold float_of_int.
  destruct (binary_normalize prec emax n 0 false); intros H;
    try discriminate H; injection H as <-; reflexivity.
Qed.

Lemma float_of_int_error (n : Z) (e : exn) :
  float_of_int n = Raise e -> e = OverflowError.
Proof.
  unfold float_of_int.
  destruct (binary_normalize prec emax n 0 false); intros H;
    try discriminate H; now injection H as <-.
Qed.

(** The total of counts that sum to zero, with a smoothing of zero. *)
Lemma zero_total (smoothing n : float) :
  is_zero smoothing = true -> is_finite n = true ->
  is_zero (fadd (S754_zero false) (fmul smoothing n)) = true.
Proof.
  destruct smoothing as [s| | |]; try discriminate. intros _.
  destruct n as [t| | |t m e]; try discriminate; intros _; simpl.
  - destruct (xorb s t); reflexivity.
  - destruct (xorb s t); reflexivity.
Qed.

(** C9. On the empty table [calculate_probabilities] returns the empty
    mapping, whatever the smoothing, an infinity or a NaN too: the loop
    body, and so the division, is never reached.  The length and the sum
    of the counts both convert to zero; for a finite smoothing the total
    is a zero, so that any division by it would raise, and for an
    infinity or a NaN the total is a NaN. *)
Theorem calculate_probabilities_empty (smoothing : float) :
  calculate_probabilities [] smoothing = Return []
  /\ float_of_int (Z.of_nat (List.length (@nil (key * Z))))
     = Return (S754_zero false)
  /\ float_of_int (sum (values (@nil (key * Z)))) = Return (S754_zero false)
  /\ forall x : float,
       fdiv x (fadd (S754_zero false) (fmul smoothing (S754_zero false)))
       = if is_finite smoothing
         then Raise ZeroDivisionError
         else Return S754_nan.
Proof.
  split; [reflexivity|]. split; [reflexivity|]. split; [reflexivity|].
  intros x. unfold fdiv.
  destruct smoothing as [t| | |t m e]; simpl.
  - destruct t; reflexivity.
  - destruct x; reflexivity.
  - destruct x; reflexivity.
  - destruct t; reflexivity.
Qed.

(** C3, as the code has it. With a smoothing of zero and counts that sum to
    zero, [calculate_probabilities] returns the empty mapping when the
    table has no key; when it has one, the total is zero and the first
    division raises [ZeroDivisionError], unless the conversion of the
    number of keys or of the first count has raised [OverflowError]
    before.  It never raises [EmptyDistributionError]. *)
Theorem calculate_probabilities_zero_total
    (d : dict key Z) (smoothing : float) :
  is_zero smoothing = true -> sum (values d) = 0%Z ->
  calculate_probabilities d smoothing
  = match d with
    | [] => Return []
    | (_, count) :: _ =>
        n <- float_of_int (Z.of_nat (List.length d)) ;;
        c <- float_of_int count ;;
        Raise ZeroDivisionError
    end
  /\ calculate_probabilities d smoothing <> Raise EmptyDistributionError
  /\ (Forall (fun count => (0 <= count)%Z) (values d) ->
      forall n : float,
        float_of_int (Z.of_nat (List.length d)) = Return n ->
        d <> [] ->
        calculate_probabilities d smoothing = Raise ZeroDivisionError).
Proof.
  intros Hs Hd.
  assert (E : calculate_probabilities d smoothing
              = match d with
                | [] => Return []
                | (_, count) :: _ =>
                    n <- float_of_int (Z.of_nat (List.length d)) ;;
                    c <- float_of_int count ;;
                    Raise ZeroDivisionError
                end).
  { destruct d as [|[k count] d]; [reflexivity|].
    unfold calculate_probabilities. rewrite Hd.
    destruct (float_of_int (Z.of_nat (List.length ((k, count) :: d))))
      as [n|e] eqn:En; [|reflexivity].
    cbn [bind]. change (float_of_int 0) with (Return (S754_zero false)).
    cbn [bind probabilities_loop].
    destruct (float_of_int count) as [c|e]; [|reflexivity].
    cbn [bind]. unfold fdiv.
    now rewrite (zero_total smoothing n Hs (float_of_int_finite _ _ En)). }
  split; [exact E|]. split.
  - rewrite E. destruct d as [|[k count] d]; [discriminate|].
    destruct (float_of_int (Z.of_nat (List.length ((k, count) :: d))))
      as [n|e] eqn:En.
    + cbn [bind]. destruct (float_of_int count) as [c|e] eqn:Ec.
      * discriminate.
      * apply float_of_int_error in Ec. subst e. discriminate.
    + apply float_of_int_error in En. subst e. discriminate.
  - intros Hpos n Hn Hne. rewrite E.
    destruct d as [|[k count] d]; [congruence|]. rewrite Hn. cbn [bind].
    assert (Hc : count = 0%Z).
    { unfold values in Hd, Hpos. cbn [List.map snd] in Hd, Hpos.
      rewrite sum_cons in Hd. inversion Hpos as [|? ? H0 Hrest]; subst.
      assert (Hr : (0 <= sum (List.map snd d))%Z).
      { clear -Hrest. induction Hrest as [|x l Hx Hl IH];
          [rewrite sum_nil; lia | rewrite sum_cons; lia]. }
      lia. }
    subst count. reflexivity.
Qed.

Lemma calculate_probabilities_zero_total_witness :
  (is_zero (S754_zero false) = true /\ sum (values zero_table) = 0%Z)
  /\ calculate_probabilities zero_table (S754_zero false)
     = Raise ZeroDivisionError.
Proof.
  split; [split; reflexivity|].
  exact (proj1 (calculate_probabilities_zero_total zero_table
                  (S754_zero false) eq_refl eq_refl)).
Defined.

(** C3, as stated, fails: with a smoothing of zero and a total of zero the
    error is [ZeroDivisionError], not [EmptyDistributionError]. *)
Lemma calculate_probabilities_not_guarded :
  is_zero (S754_zero false) = true
  /\ sum (values zero_table) = 0%Z
  /\ calculate_probabilities zero_table (S754_zero false)
     = Raise ZeroDivisionError
  /\ calculate_probabilities zero_table (S754_zero false)
     <> Raise EmptyDistributionError.
Proof.
  split; [reflexivity|]. split; [reflexivity|].
  split; [reflexivity | discriminate].
Qed.

End NgramFacts.

(* ================================================================== *)
(** * FrequencyAnalyzer: persistence *)
(* ================================================================== *)

Module PersistenceFacts.
Import Py PyFacts FrequencyAnalyzer Roundtrip Examples.

Section FoldSet.
Variables K1 K2 V : Type.
Variable K2_eq_dec : forall a b : K2, {a = b} + {a <> b}.
Variable g : K1 -> K2.

Let step (acc : dict K2 V) (kv : K1 * V) : dict K2 V :=
  dict_set K2_eq_dec acc (g (fst kv)) (snd kv).



Lemma fold_set_keys (l : list (K1 * V)) (acc : dict K2 V) (x : K2) :
  In x (keys (fold_left step l acc))
  <-> In x (keys acc) \/ exists k, In k (keys l) /\ x = g k.
Proof.
  revert acc; induction l as [|[k v] l IH]; intros acc; simpl.
  - split; [tauto | intros [H|[k [[] _]]]; exact H].
  - rewrite IH. unfold step at 1. rewrite dict_set_keys. simpl. split.
    + intros [[->|H]|[k0 [H ->]]]; eauto.
    + intros [H|[k0 [[<-|H] ->]]]; eauto.
Qed.
End FoldSet.

(** ** Splitting a joined tuple *)

Lemma delimiter_bars : delimiter = [c_pipe; c_pipe].
Proof. reflexivity. Qed.












(** ** What [json.dump] accepts *)



















(** The write error: a lone surrogate stops [json.dump] after the pairs
    that precede it. *)
Lemma save_frequencies_surrogate :
  fst (save_frequencies surrogate_table out_json empty_fs)
  = Raise UnicodeEncodeError
  /\ snd (save_frequencies surrogate_table out_json empty_fs) out_json
     = Regular Truncated
  /\ fst (load_frequencies out_json
            (snd (save_frequencies surrogate_table out_json empty_fs)))
     = Raise JSONDecodeError.
Proof. repeat split; vm_compute; reflexivity. Qed.

End PersistenceFacts.

(* ================================================================== *)
(** * Lemmas on stripping and on collapsing whitespace *)
(* ================================================================== *)

Module StringFacts.
Import Py.

Lemma drop_while_Forall (P : char -> Prop) (q : char -> bool) (s : text) :
  Forall P s -> Forall P (drop_while q s).
Proof.
  induction 1 as [|c s Hc Hs IH]; simpl; [constructor|].
  destruct (q c); [exact IH | now constructor].
Qed.

Lemma strip_Forall (P : char -> Prop) (s : text) :
  Forall P s -> Forall P (strip s).
Proof.
  intros H. unfold strip.
  apply Forall_rev, drop_while_Forall, Forall_rev, drop_while_Forall, H.
Qed.

Lemma drop_while_suffix (q : char -> bool) (s : text) :
  exists p, s = p ++ drop_while q s.
Proof.
  induction s as [|c s [p IH]]; simpl.
  - now exists [].
  - destruct (q c).
    + exists (c :: p). simpl. now rewrite <- IH.
    + now exists [].
Qed.

(** A text that does not begin with whitespace. *)
Definition starts_clean (s : text) : Prop :=
  match s with
  | [] => True
  | c :: _ => is_space c = false
  end.

Lemma drop_while_starts_clean (s : text) :
  starts_clean (drop_while is_space s).
Proof.
  induction s as [|c s IH]; simpl; [exact I|].
  destruct (is_space c) eqn:E; [exact IH | exact E].
Qed.

Lemma drop_while_fixed (s : text) :
  starts_clean s -> drop_while is_space s = s.
Proof. destruct s as [|c s]; simpl; [reflexivity|]. now intros ->. Qed.

Lemma starts_clean_app (a b : text) :
  a <> [] -> starts_clean (a ++ b) -> starts_clean a.
Proof. destruct a; [congruence | simpl; tauto]. Qed.

Lemma drop_while_ends_clean (s : text) :
  starts_clean (rev s) -> starts_clean (rev (drop_while is_space s)).
Proof.
  destruct (drop_while_suffix is_space s) as [p Hp].
  destruct (drop_while is_space s) as [|c d] eqn:E; [intros _; exact I|].
  rewrite Hp at 1. rewrite rev_app_distr. apply starts_clean_app.
  intros H. apply (f_equal (@List.length char)) in H.
  rewrite length_rev in H. discriminate H.
Qed.

(** [strip] leaves no whitespace at either end, and changes nothing when
    there is none. *)
Lemma strip_clean (s : text) :
  starts_clean (strip s) /\ starts_clean (rev (strip s)).
Proof.
  unfold strip. split.
  - apply drop_while_ends_clean. rewrite rev_involutive.
    apply drop_while_starts_clean.
  - rewrite rev_involutive. apply drop_while_starts_clean.
Qed.

Lemma strip_fixed (s : text) :
  starts_clean s -> starts_clean (rev s) -> strip s = s.
Proof.
  intros H1 H2. unfold strip.
  rewrite (drop_while_fixed s H1), (drop_while_fixed (rev s) H2).
  apply rev_involutive.
Qed.

Lemma strip_infix (s : text) : exists p q, s = p ++ strip s ++ q.
Proof.
  unfold strip.
  destruct (drop_while_suffix is_space s) as [p Hp].
  destruct (drop_while_suffix is_space (rev (drop_while is_space s)))
    as [q Hq].
  exists p, (rev q). rewrite <- rev_app_distr, <- Hq, rev_involutive.
  exact Hp.
Qed.

(** Whitespace in collapsed form: every whitespace character is the space
    and none follows another; [prev_space] tells whether the character
    before the text is whitespace. *)
Fixpoint tidy_from (prev_space : bool) (s : text) : bool :=
  match s with
  | [] => true
  | c :: s' =>
      if is_space c
      then (c =? c_space)%N && negb prev_space && tidy_from true s'
      else tidy_from false s'
  end.

Lemma collapse_from_tidy (s : text) (b : bool) :
  tidy_from b (collapse_from b s) = true.
Proof.
  revert b; induction s as [|c s IH]; intros b; simpl; [reflexivity|].
  destruct (is_space c) eqn:E.
  - destruct b; [apply IH|]. simpl. now rewrite IH.
  - simpl. rewrite E. apply IH.
Qed.

Lemma tidy_collapse_fixed (s : text) (b : bool) :
  tidy_from b s = true -> collapse_from b s = s.
Proof.
  revert b; induction s as [|c s IH]; intros b; simpl; [reflexivity|].
  destruct (is_space c) eqn:E.
  - intros H. apply andb_true_iff in H as [H Hs].
    apply andb_true_iff in H as [Hc Hb].
    apply N.eqb_eq in Hc. apply negb_true_iff in Hb. subst b c.
    now rewrite (IH true Hs).
  - intros H. now rewrite (IH false H).
Qed.

Lemma tidy_from_weaken (s : text) (b : bool) :
  tidy_from b s = true -> tidy_from false s = true.
Proof.
  destruct s as [|c s]; simpl; [reflexivity|].
  destruct (is_space c); [|tauto].
  intros H. apply andb_true_iff in H as [H Hs].
  apply andb_true_iff in H as [Hc _]. now rewrite Hc, Hs.
Qed.

Lemma tidy_from_prefix (p q : text) (b : bool) :
  tidy_from b (p ++ q) = true -> tidy_from b p = true.
Proof.
  revert b; induction p as [|c p IH]; intros b; simpl; [reflexivity|].
  destruct (is_space c).
  - intros H. apply andb_true_iff in H as [H Hs]. rewrite H. simpl.
    now apply IH.
  - apply IH.
Qed.

Lemma tidy_from_suffix (p q : text) (b : bool) :
  tidy_from b (p ++ q) = true -> tidy_from false q = true.
Proof.
  revert b; induction p as [|c p IH]; intros b; simpl.
  - apply tidy_from_weaken.
  - destruct (is_space c).
    + intros H. apply andb_true_iff in H as [_ Hs]. now apply IH in Hs.
    + apply IH.
Qed.

Lemma strip_tidy (s : text) :
  tidy_from false s = true -> tidy_from false (strip s) = true.
Proof.
  destruct (strip_infix s) as [p [q H]]. intros Ht. rewrite H in Ht.
  apply tidy_from_suffix in Ht. now apply tidy_from_prefix in Ht.
Qed.

Lemma collapse_from_Forall (P : char -> Prop) (s : text) (b : bool) :
  P c_space -> Forall P s -> Forall P (collapse_from b s).
Proof.
  intros Hsp H. revert b; induction H as [|c s Hc Hs IH]; intros b; simpl.
  - constructor.
  - destruct (is_space c); [destruct b|]; try constructor; auto.
Qed.

(** The last two steps of [normalize_text] undo nothing of each other: a
    collapsed and stripped text is a fixed point of both. *)
Lemma strip_collapse_fixed (s : text) :
  let r := strip (collapse_ws s) in
  collapse_ws r = r /\ strip r = r.
Proof.
  cbv zeta. split.
  - apply tidy_collapse_fixed, strip_tidy, collapse_from_tidy.
  - apply strip_fixed; apply strip_clean.
Qed.

End StringFacts.

(* ================================================================== *)
(** * TextPreprocessor: sentences and the summary *)
(* ================================================================== *)

Module SummaryFacts.
Import Py PyFacts StringFacts TextPreprocessor Examples.

Definition plain (c : char) : Prop := is_terminator c = false.

(** The pieces cut by [re.split] hold no terminator. *)
Lemma re_split_from_plain (s : text) (in_run : bool) (cur : text) :
  Forall plain cur -> Forall (Forall plain) (re_split_from in_run cur s).
Proof.
  revert in_run cur; induction s as [|c s IH]; intros in_run cur Hcur; simpl.
  - constructor; [now apply Forall_rev | constructor].
  - destruct (is_terminator c) eqn:Hc.
    + destruct in_run.
      * now apply IH.
      * constructor; [now apply Forall_rev | apply IH; constructor].
    + apply IH. now constructor.
Qed.

(** A sentence is not empty and holds no terminator. *)
Lemma tokenize_sentences_spec (s x : text) :
  In x (tokenize_sentences s) -> x <> [] /\ Forall plain x.
Proof.
  unfold tokenize_sentences. rewrite in_map_iff.
  intros [p [<- Hp]]. apply filter_In in Hp as [Hp Hne]. split.
  - destruct (strip p); [discriminate | discriminate].
  - apply strip_Forall.
    pose proof (re_split_from_plain s false [] (Forall_nil _)) as H.
    rewrite Forall_forall in H. now apply H.
Qed.

Lemma slice_to_firstn {A} (l : list A) (k : Z) :
  slice_to l k
  = firstn (Z.to_nat (clamp_index (Z.of_nat (List.length l)) k)) l.
Proof.
  unfold slice_to, slice.
  assert (H0 : clamp_index (Z.of_nat (List.length l)) 0 = 0%Z).
  { unfold clamp_index. simpl. lia. }
  rewrite H0. simpl skipn. now rewrite Z.sub_0_r.
Qed.

(** The sentences sliced by a count that is not positive: none when the
    count is zero or reaches back past the first sentence. *)
Lemma slice_to_nonpositive {A} (l : list A) (k : Z) :
  l <> [] -> (k <= 0)%Z ->
  (slice_to l k = [] <-> (k = 0 \/ Z.of_nat (List.length l) <= - k)%Z).
Proof.
  intros Hl Hk. rewrite slice_to_firstn. unfold clamp_index.
  destruct l as [|x l]; [congruence|]. clear Hl.
  remember (List.length (x :: l)) as len eqn:Elen.
  assert (Hlen : (0 < len)%nat) by (subst len; simpl; lia).
  clear Elen.
  destruct (Z.ltb_spec k 0) as [Hneg|Hz].
  - destruct (Z.to_nat (Z.max 0 (k + Z.of_nat len))) eqn:E; cbn [firstn].
    + split; [intros _; lia | reflexivity].
    + split; [discriminate | lia].
  - replace (Z.to_nat (Z.min k (Z.of_nat len))) with 0%nat by lia.
    cbn [firstn]. split; [intros _; lia | reflexivity].
Qed.

Lemma ends_with_any_nil (cs : list char) : ends_with_any cs [] = false.
Proof. reflexivity. Qed.

Lemma join_cons (sep x : text) (rest : list text) :
  exists tail, join sep (x :: rest) = x ++ tail.
Proof.
  destruct rest as [|y rest].
  - exists []. simpl. now rewrite app_nil_r.
  - exists (sep ++ join sep (y :: rest)). reflexivity.
Qed.

(** What [create_summary] returns when sentences are left in the slice is
    not the lone period. *)
Lemma summary_of_sentences (x : text) (rest : list text) :
  x <> [] -> Forall plain x ->
  (let summary := join (str ". ") (x :: rest) in
   if ends_with_any [c_dot; c_bang; c_qmark] summary
   then summary else summary ++ [c_dot]) <> str ".".
Proof.
  intros Hx Hp. destruct (join_cons (str ". ") x rest) as [tail ->].
  destruct x as [|c x]; [congruence|]. cbv zeta.
  inversion Hp as [|? ? Hc _]; subst.
  destruct (ends_with_any _ _).
  - simpl. intros E. injection E as -> _. discriminate Hc.
  - simpl. intros E. injection E as _ E.
    destruct (x ++ tail); discriminate E.
Qed.

Lemma rev_not_nil {A} (l : list A) : l <> [] -> rev l <> [].
Proof.
  intros Hne E. apply Hne. rewrite <- (rev_involutive l), E. reflexivity.
Qed.

Lemma ends_with_any_terminators (s : text) :
  ends_with_any [c_dot; c_bang; c_qmark] s
  = match rev s with
    | [] => false
    | c :: _ => is_terminator c
    end.
Proof.
  unfold ends_with_any. destruct (rev s) as [|c r]; [reflexivity|].
  unfold is_terminator. cbn [existsb].
  now rewrite orb_false_r, orb_assoc.
Qed.

Lemma plain_end (x : text) :
  Forall plain x -> ends_with_any [c_dot; c_bang; c_qmark] x = false.
Proof.
  intros H. rewrite ends_with_any_terminators. apply Forall_rev in H.
  destruct (rev x) as [|c r]; [reflexivity|]. now inversion H.
Qed.

Lemma ends_with_any_app (cs : list char) (a b : text) :
  b <> [] -> ends_with_any cs (a ++ b) = ends_with_any cs b.
Proof.
  intros Hb. unfold ends_with_any. rewrite rev_app_distr.
  apply rev_not_nil in Hb. destruct (rev b); [congruence | reflexivity].
Qed.

(** Sentences joined by a period and a space do not end with a
    terminator. *)
Lemma join_sentences_end (xs : list text) :
  Forall (fun x => x <> [] /\ Forall plain x) xs ->
  ends_with_any [c_dot; c_bang; c_qmark] (join (str ". ") xs) = false.
Proof.
  induction 1 as [|x xs [Hne Hp] Hxs IH]; [reflexivity|].
  destruct xs as [|y xs]; [now apply plain_end|].
  change (join (str ". ") (x :: y :: xs))
    with (x ++ str ". " ++ join (str ". ") (y :: xs)).
  assert (Hj : join (str ". ") (y :: xs) <> []).
  { intros Hj. destruct (join_cons (str ". ") y xs) as [tail Et].
    pose proof (eq_trans (eq_sym Et) Hj) as E.
    inversion Hxs as [|? ? [Hy _] _]; subst.
    destruct y; [congruence | discriminate E]. }
  rewrite ends_with_any_app; [|discriminate].
  rewrite ends_with_any_app by exact Hj. exact IH.
Qed.

Lemma slice_to_In {A} (l : list A) (k : Z) (x : A) :
  In x (slice_to l k) -> In x l.
Proof. rewrite slice_to_firstn. apply firstn_In. Qed.

(** On a text with a sentence the period is always appended. *)
Lemma create_summary_joined (s : text) (num_sentences : Z) :
  tokenize_sentences s <> [] ->
  create_summary s num_sentences
  = join (str ". ") (slice_to (tokenize_sentences s) num_sentences)
    ++ [c_dot].
Proof.
  intros Hs. unfold create_summary.
  destruct (tokenize_sentences s) as [|x0 l0] eqn:E; [congruence|].
  rewrite <- E.
  rewrite join_sentences_end; [reflexivity|].
  apply Forall_forall. intros x Hx. apply slice_to_In in Hx.
  now apply tokenize_sentences_spec in Hx.
Qed.

(** A negative bound of smaller magnitude than the length cuts the list
    in two: what the slice keeps, and as many items at the end as the
    magnitude of the bound. *)
Lemma slice_to_negative {A} (l : list A) (k : Z) :
  (- Z.of_nat (List.length l) < k < 0)%Z ->
  exists dropped : list A,
    l = slice_to l k ++ dropped
    /\ Z.of_nat (List.length dropped) = (- k)%Z
    /\ slice_to l k <> [].
Proof.
  intros Hk. rewrite slice_to_firstn. unfold clamp_index.
  destruct (Z.ltb_spec k 0) as [_|]; [|lia].
  set (m := Z.to_nat (Z.max 0 (k + Z.of_nat (List.length l)))).
  exists (skipn m l). split; [now rewrite firstn_skipn|]. split.
  - rewrite length_skipn. lia.
  - intros E. apply (f_equal (@List.length A)) in E.
    rewrite length_firstn in E. simpl in E. lia.
Qed.

(** C10, as the code has it. On a text with at least one sentence and a
    count that is not positive, [create_summary] returns the lone period
    exactly when the count is zero or its magnitude is at least the number
    of sentences; a negative count of smaller magnitude drops that many
    sentences from the end, and the summary is the sentences that are
    left, joined by a period and a space, then a period. *)
Theorem create_summary_nonpositive (s : text) (num_sentences : Z) :
  tokenize_sentences s <> [] -> (num_sentences <= 0)%Z ->
  (create_summary s num_sentences = str "."
   <-> (num_sentences = 0
        \/ Z.of_nat (List.length (tokenize_sentences s)) <= - num_sentences)%Z)
  /\ ((- Z.of_nat (List.length (tokenize_sentences s)) < num_sentences < 0)%Z ->
      exists kept dropped : list text,
        tokenize_sentences s = kept ++ dropped
        /\ Z.of_nat (List.length dropped) = (- num_sentences)%Z
        /\ kept <> []
        /\ create_summary s num_sentences
           = join (str ". ") kept ++ [c_dot]).
Proof.
  intros Hs Hk. split.
  - rewrite <- (slice_to_nonpositive _ _ Hs Hk).
    unfold create_summary.
    destruct (tokenize_sentences s) as [|x0 l0] eqn:E; [congruence|].
    rewrite <- E in *. split.
    + intros H. destruct (slice_to (tokenize_sentences s) num_sentences)
        as [|x rest] eqn:Es; [reflexivity|]. exfalso.
      assert (Hin : In x (tokenize_sentences s)).
      { apply (firstn_In (Z.to_nat
                 (clamp_index (Z.of_nat (List.length (tokenize_sentences s)))
                              num_sentences))).
        rewrite <- slice_to_firstn, Es. now left. }
      apply tokenize_sentences_spec in Hin as [Hx Hp].
      exact (summary_of_sentences x rest Hx Hp H).
    + intros ->. reflexivity.
  - intros Hneg.
    destruct (slice_to_negative (tokenize_sentences s) num_sentences Hneg)
      as (dropped & Hcut & Hlen & Hne).
    exists (slice_to (tokenize_sentences s) num_sentences), dropped.
    split; [exact Hcut|]. split; [exact Hlen|]. split; [exact Hne|].
    now apply create_summary_joined.
Qed.

Lemma create_summary_nonpositive_witness :
  (tokenize_sentences three_sentences <> [] /\ (-1 <= 0)%Z)
  /\ (create_summary three_sentences (-1) = str "."
      <-> (-1 = 0
           \/ Z.of_nat (List.length (tokenize_sentences three_sentences))
              <= - -1)%Z)
  /\ ((- Z.of_nat (List.length (tokenize_sentences three_sentences))
       < -1 < 0)%Z ->
      exists kept dropped : list text,
        tokenize_sentences three_sentences = kept ++ dropped
        /\ Z.of_nat (List.length dropped) = (- -1)%Z
        /\ kept <> []
        /\ create_summary three_sentences (-1)
           = join (str ". ") kept ++ [c_dot]).
Proof.
  assert (Hne : tokenize_sentences three_sentences <> []).
  { vm_compute. discriminate. }
  split; [split; [exact Hne | lia]|].
  apply (create_summary_nonpositive three_sentences (-1)); [exact Hne | lia].
Defined.

(** C10, as stated, fails: with three sentences and a count of -1 the
    summary holds the first two sentences. *)
Lemma create_summary_negative_keeps_sentences :
  tokenize_sentences three_sentences <> []
  /\ (-1 <= 0)%Z
  /\ create_summary three_sentences (-1) = str "a. b."
  /\ create_summary three_sentences (-1) <> str ".".
Proof.
  split; [vm_compute; discriminate|]. split; [lia|].
  split; [reflexivity | vm_compute; discriminate].
Qed.

End SummaryFacts.

(* ================================================================== *)
(** * TextPreprocessor: normalization *)
(* ================================================================== *)

Module NormalizeFacts.
Import Py PyFacts StringFacts TextPreprocessor Database Examples.

Lemma ascii_lower_char_idempotent (c : char) :
  ascii_lower_char (ascii_lower_char c) = ascii_lower_char c.
Proof.
  unfold ascii_lower_char.
  destruct ((65 <=? c) && (c <=? 90))%N eqn:E; [|now rewrite E].
  apply andb_true_iff in E as [E _]. apply N.leb_le in E.
  replace ((65 <=? c + 32) && (c + 32 <=? 90))%N with false; [reflexivity|].
  symmetry. apply andb_false_iff. right. apply N.leb_gt. lia.
Qed.

(** The ASCII database has the assumed properties. *)
Lemma ascii_lawful : lawful ascii_unicode.
Proof.
  constructor; try reflexivity; simpl.
  - intros t c Hin. apply in_map_iff in Hin as [x [<- _]].
    now rewrite ascii_lower_char_idempotent.
  - induction t as [|c t IH]; intros H; simpl; [reflexivity|].
    rewrite IH by (intros x Hx; apply H; now right).
    specialize (H c (or_introl eq_refl)). now injection H as ->.
Qed.

Section Normalize.
Variable U : unicode.

Lemma normalize_text_steps (s : text) (preserve_sentences : bool) :
  normalize_text U s preserve_sentences
  = strip (collapse_ws
      ((if preserve_sentences then blank_punctuation U
        else blank_nonword U None) (standardized U s))).
Proof. destruct preserve_sentences; reflexivity. Qed.

Lemma kept_space : kept U c_space = true.
Proof.
  unfold kept. replace (is_space c_space) with true by reflexivity.
  now rewrite orb_true_r.
Qed.

Lemma blank_punctuation_kept (s : text) :
  Forall (fun c => kept U c = true) (blank_punctuation U s).
Proof.
  unfold blank_punctuation. apply Forall_map, Forall_forall. intros c _.
  destruct (kept U c) eqn:E; [exact E | apply kept_space].
Qed.

Lemma blank_punctuation_nth (s : text) (i : nat) (c : char) :
  nth_error s i = Some c ->
  nth_error (blank_punctuation U s) i
  = Some (if kept U c then c else c_space).
Proof.
  intros H. unfold blank_punctuation. now rewrite nth_error_map, H.
Qed.

Lemma blank_punctuation_fixed (s : text) :
  Forall (fun c => kept U c = true) s -> blank_punctuation U s = s.
Proof.
  induction 1 as [|c s Hc Hs IH]; simpl; [reflexivity|].
  rewrite Hc. f_equal. exact IH.
Qed.

(** The character is a member of the class that is kept. *)
Lemma kept_cases (c : char) :
  kept U c = true ->
  is_word U c = true \/ is_space c = true \/ c = c_dot \/ c = c_bang
  \/ c = c_qmark \/ c = c_apos \/ c = c_hyphen.
Proof.
  unfold kept. rewrite !orb_true_iff, !N.eqb_eq. tauto.
Qed.

Lemma normalize_text_chars (s : text) (c : char) :
  In c (normalize_text U s true) ->
  kept U c = true /\ (is_space c = true -> c = c_space).
Proof.
  rewrite normalize_text_steps.
  set (t := blank_punctuation U (standardized U s)).
  assert (H : Forall (fun c => kept U c = true
                      /\ (is_space c = true -> c = c_space))
                (strip (collapse_ws t))).
  { apply strip_Forall.
    assert (Hk : Forall (fun c => kept U c = true) t)
      by apply blank_punctuation_kept.
    clearbody t. unfold collapse_ws. generalize false.
    induction Hk as [|x t Hx Ht IH]; intros b; simpl; [constructor|].
    destruct (is_space x) eqn:E.
    - destruct b; [apply IH|]. constructor; [|apply IH].
      split; [apply kept_space | reflexivity].
    - constructor; [|apply IH]. split; [exact Hx | congruence]. }
  rewrite Forall_forall in H. apply H.
Qed.

(** C6, as the code has it. Every character of
    [normalize_text text true] is a word character, the space, one of the
    three terminators, the apostrophe or the hyphen-minus; every other
    character of the lowercased text with standardized quotes and dashes
    is replaced, in place, by one space before the whitespace is
    collapsed. *)
Theorem normalize_text_alphabet (s : text) :
  (forall c : char,
     In c (normalize_text U s true) ->
     is_word U c = true \/ c = c_space \/ c = c_dot \/ c = c_bang
     \/ c = c_qmark \/ c = c_apos \/ c = c_hyphen)
  /\ normalize_text U s true
     = strip (collapse_ws (blank_punctuation U (standardized U s)))
  /\ (forall (i : nat) (c : char),
        nth_error (standardized U s) i = Some c ->
        nth_error (blank_punctuation U (standardized U s)) i
        = Some (if kept U c then c else c_space)).
Proof.
  split; [|split].
  - intros c Hin. apply normalize_text_chars in Hin as [Hk Hsp].
    apply kept_cases in Hk. tauto.
  - reflexivity.
  - intros i c. apply blank_punctuation_nth.
Qed.

(** A character that [lower] leaves alone. *)
Definition fixed (c : char) : Prop := lower U [c] = [c].

(** A character that the first four steps of [normalize_text] leave
    alone. *)
Definition settled (c : char) : Prop :=
  fixed c /\ c <> c_lsquote /\ c <> c_rsquote
  /\ c <> c_emdash /\ c <> c_endash.

Lemma map_fixed (f : char -> char) (l : text) :
  Forall (fun c => f c = c) l -> List.map f l = l.
Proof.
  induction 1 as [|c l Hc Hl IH]; simpl; [reflexivity|]. now rewrite Hc, IH.
Qed.

Lemma settled_space : lawful U -> settled c_space.
Proof.
  intros L. split; [apply (lower_space U L)|]. repeat split; discriminate.
Qed.

Lemma standardized_settled (s : text) :
  lawful U -> Forall settled (standardized U s).
Proof.
  intros L. unfold standardized, standardize_dashes, standardize_squotes,
    standardize_dquotes.
  rewrite !Forall_map.
  assert (H : Forall fixed (lower U s)).
  { apply Forall_forall. intros c Hc. exact (lower_output_fixed U L s c Hc). }
  revert H. apply Forall_impl. intros c Hc.
  assert (H1 : (if ((c =? c_dquote) || (c =? c_dquote))%N
                then c_dquote else c) = c).
  { destruct (N.eqb_spec c c_dquote) as [->|]; reflexivity. }
  rewrite H1.
  destruct (N.eqb_spec c c_lsquote) as [E1|E1];
    [|destruct (N.eqb_spec c c_rsquote) as [E2|E2]]; simpl.
  - split; [apply (lower_apos U L)|]. repeat split; discriminate.
  - split; [apply (lower_apos U L)|]. repeat split; discriminate.
  - destruct (N.eqb_spec c c_emdash) as [E3|E3];
      [|destruct (N.eqb_spec c c_endash) as [E4|E4]]; simpl.
    + split; [apply (lower_hyphen U L)|]. repeat split; discriminate.
    + split; [apply (lower_hyphen U L)|]. repeat split; discriminate.
    + repeat split; assumption.
Qed.

(** On settled characters the first four steps change nothing. *)
Lemma standardized_fixed (r : text) :
  lawful U -> Forall settled r -> standardized U r = r.
Proof.
  intros L H. unfold standardized.
  assert (Hl : lower U r = r).
  { apply (lower_fixed_text U L). rewrite Forall_forall in H.
    intros c Hc. exact (proj1 (H c Hc)). }
  rewrite Hl.
  assert (H1 : standardize_dquotes r = r).
  { apply map_fixed, Forall_forall. intros c _.
    destruct (N.eqb_spec c c_dquote) as [->|]; reflexivity. }
  rewrite H1.
  assert (H2 : standardize_squotes r = r).
  { apply map_fixed. revert H. apply Forall_impl.
    intros c (_ & E1 & E2 & _).
    apply N.eqb_neq in E1, E2. now rewrite E1, E2. }
  rewrite H2.
  apply map_fixed. revert H. apply Forall_impl.
  intros c (_ & _ & _ & E3 & E4).
  apply N.eqb_neq in E3, E4. now rewrite E3, E4.
Qed.

Lemma blank_punctuation_settled (s : text) :
  lawful U -> Forall settled s -> Forall settled (blank_punctuation U s).
Proof.
  intros L H. unfold blank_punctuation. rewrite Forall_map.
  revert H. apply Forall_impl. intros c Hc.
  destruct (kept U c); [exact Hc | now apply settled_space].
Qed.

Lemma blank_nonword_settled (s : text) (prev : option char) :
  lawful U -> Forall settled s -> Forall settled (blank_nonword U prev s).
Proof.
  intros L H. revert prev.
  induction H as [|c s Hc Hs IH]; intros prev; simpl; [constructor|].
  constructor; [|apply IH].
  match goal with |- settled (if ?b then _ else _) => destruct b end;
    [now apply settled_space | exact Hc].
Qed.

(** A character left by the second pattern is a word character or
    whitespace. *)
Definition word_or_space (c : char) : Prop :=
  is_word U c || is_space c = true.

Lemma blank_nonword_word_or_space (s : text) (prev : option char) :
  Forall word_or_space (blank_nonword U prev s).
Proof.
  revert prev; induction s as [|c s IH]; intros prev; simpl; [constructor|].
  constructor; [|apply IH]. unfold word_or_space.
  destruct (is_word U c || is_space c) eqn:E; simpl.
  - rewrite orb_false_r.
    match goal with |- context [if ?b then _ else _] => destruct b end;
      [now rewrite orb_true_r | exact E].
  - rewrite orb_true_r. now rewrite orb_true_r.
Qed.

Lemma blank_nonword_fixed (s : text) (prev : option char) :
  lawful U -> Forall word_or_space s -> blank_nonword U prev s = s.
Proof.
  intros L H. revert prev.
  induction H as [|c s Hc Hs IH]; intros prev; simpl; [reflexivity|].
  rewrite IH. unfold word_or_space in Hc. rewrite Hc. simpl.
  rewrite orb_false_r.
  destruct (N.eqb_spec c c_apos) as [->|]; [|reflexivity].
  unfold is_word in Hc. rewrite (apos_not_alnum U L) in Hc.
  discriminate Hc.
Qed.

(** The characters of a normalized text are settled, and pass the
    punctuation step of their mode unchanged. *)
Lemma normalize_text_settled (s : text) (preserve_sentences : bool) :
  lawful U -> Forall settled (normalize_text U s preserve_sentences).
Proof.
  intros L. rewrite normalize_text_steps.
  apply strip_Forall, collapse_from_Forall; [now apply settled_space|].
  destruct preserve_sentences.
  - now apply blank_punctuation_settled, standardized_settled.
  - now apply blank_nonword_settled, standardized_settled.
Qed.

Lemma normalize_text_blank_fixed (s : text) (preserve_sentences : bool) :
  lawful U ->
  (if preserve_sentences then blank_punctuation U else blank_nonword U None)
    (normalize_text U s preserve_sentences)
  = normalize_text U s preserve_sentences.
Proof.
  intros L. destruct preserve_sentences.
  - apply blank_punctuation_fixed, Forall_forall. intros c Hc.
    now apply normalize_text_chars in Hc.
  - apply blank_nonword_fixed; [exact L|]. rewrite normalize_text_steps.
    apply strip_Forall, collapse_from_Forall;
      [apply orb_true_r | apply blank_nonword_word_or_space].
Qed.

End Normalize.

(** C7. [normalize_text] is idempotent, for each value of
    [preserve_sentences], over a Unicode database with the properties
    [lawful]. *)
Theorem normalize_text_idempotent
    (U : unicode) (s : text) (preserve_sentences : bool) :
  lawful U ->
  normalize_text U (normalize_text U s preserve_sentences) preserve_sentences
  = normalize_text U s preserve_sentences.
Proof.
  intros L.
  rewrite (normalize_text_steps U (normalize_text U s preserve_sentences)).
  rewrite (standardized_fixed U _ L (normalize_text_settled U s _ L)).
  rewrite (normalize_text_blank_fixed U s preserve_sentences L).
  rewrite (normalize_text_steps U s).
  destruct (strip_collapse_fixed
              ((if preserve_sentences then blank_punctuation U
                else blank_nonword U None) (standardized U s))) as [Hc Hs].
  now rewrite Hc, Hs.
Qed.

Lemma normalize_text_idempotent_witness :
  lawful ascii_unicode
  /\ normalize_text ascii_unicode
       (normalize_text ascii_unicode greeting true) true
     = normalize_text ascii_unicode greeting true.
Proof.
  split; [exact ascii_lawful|].
  apply (normalize_text_idempotent ascii_unicode greeting true).
  exact ascii_lawful.
Defined.

(** C6, as stated, fails: the hyphen-minus is kept, and it is not a word
    character, not whitespace, not a terminator and not the apostrophe. *)
Lemma normalize_text_keeps_hyphen :
  normalize_text ascii_unicode (str "a-b") true = str "a-b"
  /\ In c_hyphen (normalize_text ascii_unicode (str "a-b") true)
  /\ is_word ascii_unicode c_hyphen = false
  /\ is_space c_hyphen = false
  /\ c_hyphen <> c_dot /\ c_hyphen <> c_bang /\ c_hyphen <> c_qmark
  /\ c_hyphen <> c_apos.
Proof.
  split; [reflexivity|]. split; [vm_compute; tauto|].
  repeat split; discriminate.
Qed.

End NormalizeFacts.

(* ================================================================== *)
(** * Counters and their ranking *)
(* ================================================================== *)

Module CounterFacts.
Import Py PyFacts Ranking.

Section Counting.
Variable K : Type.
Variable K_eq_dec : forall a b : K, {a = b} + {a <> b}.

Local Abbreviation count := (count_occ K_eq_dec).
Local Abbreviation index := (first_index K K_eq_dec).

Lemma dict_get_set {V} (d : dict K V) (k k' : K) (v : V) :
  dict_get K_eq_dec (dict_set K_eq_dec d k v) k'
  = if K_eq_dec k' k then Some v else dict_get K_eq_dec d k'.
Proof.
  induction d as [|[k0 v0] d IH]; simpl.
  - destruct (K_eq_dec k' k); reflexivity.
  - destruct (K_eq_dec k k0) as [->|Hne]; simpl.
    + destruct (K_eq_dec k' k0); reflexivity.
    + rewrite IH. destruct (K_eq_dec k' k0) as [->|]; [|reflexivity].
      destruct (K_eq_dec k0 k); congruence.
Qed.

Lemma dict_get_None {V} (d : dict K V) (k : K) :
  dict_get K_eq_dec d k = None <-> ~ In k (keys d).
Proof.
  induction d as [|[k0 v0] d IH]; simpl; [tauto|].
  destruct (K_eq_dec k k0) as [->|Hne].
  - split; [discriminate | tauto].
  - rewrite IH. unfold keys. intuition congruence.
Qed.

Lemma dict_get_In {V} (d : dict K V) (k : K) (v : V) :
  dict_get K_eq_dec d k = Some v -> In (k, v) d.
Proof.
  induction d as [|[k0 v0] d IH]; simpl; [discriminate|].
  destruct (K_eq_dec k k0) as [->|Hne].
  - intros [= ->]. now left.
  - intros H. right. now apply IH.
Qed.

Lemma In_dict_get {V} (d : dict K V) (k : K) (v : V) :
  NoDup (keys d) -> In (k, v) d -> dict_get K_eq_dec d k = Some v.
Proof.
  induction d as [|[k0 v0] d IH]; simpl; [tauto|].
  intros Hnd [H|H].
  - injection H as -> ->. destruct (K_eq_dec k k); congruence.
  - inversion Hnd as [|? ? Hk Hd]; subst.
    destruct (K_eq_dec k k0) as [->|Hne]; [|now apply IH].
    exfalso. apply Hk. unfold keys. now apply (in_map fst) in H.
Qed.

Lemma dict_set_present {V} (d : dict K V) (k : K) (v : V) :
  In k (keys d) -> keys (dict_set K_eq_dec d k v) = keys d.
Proof.
  induction d as [|[k0 v0] d IH]; simpl; [tauto|].
  destruct (K_eq_dec k k0) as [->|Hne]; simpl; [reflexivity|].
  intros [H|H]; [congruence|]. f_equal. now apply IH.
Qed.

Lemma dict_set_absent {V} (d : dict K V) (k : K) (v : V) :
  ~ In k (keys d) -> keys (dict_set K_eq_dec d k v) = keys d ++ [k].
Proof.
  induction d as [|[k0 v0] d IH]; simpl; [reflexivity|].
  destruct (K_eq_dec k k0) as [->|Hne]; simpl; [tauto|].
  intros H. f_equal. apply IH. tauto.
Qed.

(** ** First occurrences *)

Lemma index_lt (x : K) (xs : list K) :
  In x xs -> (index x xs < List.length xs)%nat.
Proof.
  induction xs as [|y xs IH]; simpl; [tauto|].
  destruct (K_eq_dec x y) as [->|Hne]; [lia|].
  intros [H|H]; [congruence|]. apply IH in H. lia.
Qed.

Lemma index_app_in (x : K) (xs ys : list K) :
  In x xs -> index x (xs ++ ys) = index x xs.
Proof.
  induction xs as [|y xs IH]; simpl; [tauto|].
  destruct (K_eq_dec x y) as [->|Hne]; [reflexivity|].
  intros [H|H]; [congruence|]. now rewrite IH.
Qed.

Lemma index_app_fresh (x : K) (xs : list K) :
  ~ In x xs -> index x (xs ++ [x]) = List.length xs.
Proof.
  induction xs as [|y xs IH]; simpl.
  - destruct (K_eq_dec x x); congruence.
  - destruct (K_eq_dec x y) as [->|Hne]; [tauto|].
    intros H. rewrite IH; tauto.
Qed.

(** ** The counter of a sequence *)

Lemma Counter_snoc (xs : list K) (x : K) :
  Counter K_eq_dec (xs ++ [x])
  = counter_add K_eq_dec (Counter K_eq_dec xs) x.
Proof. unfold Counter. now rewrite fold_left_app. Qed.

(** A counter maps each element to its number of occurrences. *)
Lemma Counter_get (xs : list K) (k : K) :
  dict_get K_eq_dec (Counter K_eq_dec xs) k
  = if (count xs k =? 0)%nat then None else Some (Z.of_nat (count xs k)).
Proof.
  induction xs as [|x xs IH] using rev_ind; [reflexivity|].
  rewrite Counter_snoc. unfold counter_add. rewrite dict_get_set.
  rewrite count_occ_app. simpl.
  destruct (K_eq_dec k x) as [->|Hne].
  - rewrite IH. destruct (K_eq_dec x x); [|congruence].
    destruct (Nat.eqb_spec (count xs x) 0) as [E|E].
    + rewrite E. reflexivity.
    + destruct (Nat.eqb_spec (count xs x + 1) 0); [lia|].
      f_equal. lia.
  - destruct (K_eq_dec x k); [congruence|].
    now rewrite Nat.add_0_r.
Qed.

Lemma Counter_keys (xs : list K) (k : K) :
  In k (keys (Counter K_eq_dec xs)) <-> In k xs.
Proof.
  pose proof (count_occ_In K_eq_dec xs k) as Hc.
  pose proof (Counter_get xs k) as G.
  pose proof (dict_get_None (Counter K_eq_dec xs) k) as N.
  destruct (Nat.eqb_spec (count xs k) 0) as [E|E].
  - split; [intros H | intros H; apply Hc in H; lia].
    exfalso. now apply (proj1 N G).
  - split; [intros _; apply Hc; lia | intros _].
    destruct (in_dec K_eq_dec k (keys (Counter K_eq_dec xs))) as [H|H];
      [exact H|].
    apply N in H. congruence.
Qed.

Lemma Counter_NoDup (xs : list K) : NoDup (keys (Counter K_eq_dec xs)).
Proof.
  induction xs as [|x xs IH] using rev_ind; [constructor|].
  rewrite Counter_snoc. unfold counter_add.
  destruct (in_dec K_eq_dec x (keys (Counter K_eq_dec xs))) as [H|H].
  - now rewrite dict_set_present.
  - rewrite dict_set_absent by exact H.
    apply NoDup_app; [exact IH | repeat constructor; tauto |].
    intros a Ha [<-|[]]. tauto.
Qed.

Lemma Counter_In (xs : list K) (k : K) (n : Z) :
  In (k, n) (Counter K_eq_dec xs) ->
  In k xs /\ n = Z.of_nat (count xs k).
Proof.
  intros H. split.
  - apply Counter_keys. unfold keys. now apply (in_map fst) in H.
  - apply In_dict_get in H; [|apply Counter_NoDup].
    rewrite Counter_get in H.
    destruct (count xs k =? 0)%nat; congruence.
Qed.

Lemma StronglySorted_snoc {A} (R : A -> A -> Prop) (l : list A) (x : A) :
  StronglySorted R l -> Forall (fun a => R a x) l ->
  StronglySorted R (l ++ [x]).
Proof.
  induction 1 as [|a l Hl IH Ha]; intros Hx; simpl.
  - repeat constructor.
  - inversion Hx; subst. constructor; [now apply IH|].
    apply Forall_app. split; [exact Ha | now constructor].
Qed.

(** The keys of a counter stand in the order of their first
    occurrences. *)
Lemma Counter_order (xs : list K) :
  StronglySorted (fun a b => (index a xs < index b xs)%nat)
    (keys (Counter K_eq_dec xs)).
Proof.
  induction xs as [|x xs IH] using rev_ind; [constructor|].
  assert (Hold : StronglySorted
            (fun a b => (index a (xs ++ [x]) < index b (xs ++ [x]))%nat)
            (keys (Counter K_eq_dec xs))).
  { assert (Hin : Forall (fun a => In a xs) (keys (Counter K_eq_dec xs))).
    { apply Forall_forall. intros a. apply Counter_keys. }
    revert Hin. induction IH as [|a l Hl IHl Ha]; intros Hin; constructor.
    - apply IHl. now inversion Hin.
    - inversion Hin as [|? ? Hax Hlx]; subst.
      rewrite Forall_forall in *. intros b Hb.
      rewrite !index_app_in by auto. now apply Ha. }
  rewrite Counter_snoc. unfold counter_add.
  destruct (in_dec K_eq_dec x (keys (Counter K_eq_dec xs))) as [H|H].
  - now rewrite dict_set_present.
  - rewrite dict_set_absent by exact H.
    apply StronglySorted_snoc; [exact Hold|].
    apply Forall_forall. intros a Ha.
    apply (proj1 (Counter_keys xs a)) in Ha.
    rewrite Counter_keys in H.
    rewrite (index_app_in a xs [x] Ha), (index_app_fresh x xs H).
    now apply index_lt.
Qed.

End Counting.

(** ** The stable sort by descending count *)

Section Sorting.
Variable K : Type.

Lemma insert_desc_In (e x : K * Z) (l : list (K * Z)) :
  In e (insert_desc x l) <-> e = x \/ In e l.
Proof.
  induction l as [|y l IH]; simpl; [intuition congruence|].
  destruct (snd x <? snd y)%Z; simpl; [rewrite IH|]; intuition congruence.
Qed.

Lemma sort_desc_In (e : K * Z) (l : list (K * Z)) :
  In e (sort_desc l) <-> In e l.
Proof.
  induction l as [|x l IH]; simpl; [tauto|].
  rewrite insert_desc_In, IH. intuition congruence.
Qed.

Lemma insert_desc_length (x : K * Z) (l : list (K * Z)) :
  List.length (insert_desc x l) = S (List.length l).
Proof.
  induction l as [|y l IH]; simpl; [reflexivity|].
  destruct (snd x <? snd y)%Z; simpl; [now rewrite IH | reflexivity].
Qed.

Lemma sort_desc_length (l : list (K * Z)) :
  List.length (sort_desc l) = List.length l.
Proof.
  induction l as [|x l IH]; simpl; [reflexivity|].
  now rewrite insert_desc_length, IH.
Qed.

(** [before] is the order in which the items come. *)
Variable before : K * Z -> K * Z -> Prop.

(** The order in which they leave: by descending count, and as they came
    among equal counts. *)
Definition leaves_before (a b : K * Z) : Prop :=
  (snd b < snd a)%Z \/ (snd a = snd b /\ before a b).

Lemma insert_desc_sorted (x : K * Z) (l : list (K * Z)) :
  StronglySorted leaves_before l -> Forall (before x) l ->
  StronglySorted leaves_before (insert_desc x l).
Proof.
  induction 1 as [|y l Hl IH Hy]; intros Hx; simpl.
  - repeat constructor.
  - inversion Hx as [|? ? Hxy Hxl]; subst.
    destruct (Z.ltb_spec (snd x) (snd y)) as [Hlt|Hge].
    + constructor; [now apply IH|].
      apply Forall_forall. intros e He. apply insert_desc_In in He as [->|He].
      * now left.
      * rewrite Forall_forall in Hy. now apply Hy.
    + constructor; [now constructor|].
      constructor.
      * destruct (Z.eq_dec (snd x) (snd y)) as [E|E].
        -- right. now split.
        -- left. lia.
      * rewrite Forall_forall in *. intros e He.
        specialize (Hy e He). specialize (Hxl e He).
        destruct Hy as [Hy|[Hy _]].
        -- left. lia.
        -- destruct (Z.eq_dec (snd x) (snd e)) as [E|E].
           ++ right. now split.
           ++ left. lia.
Qed.

Lemma sort_desc_sorted (l : list (K * Z)) :
  StronglySorted before l -> StronglySorted leaves_before (sort_desc l).
Proof.
  induction 1 as [|x l Hl IH Hx]; simpl; [constructor|].
  apply insert_desc_sorted; [exact IH|].
  rewrite Forall_forall in *. intros e He. apply Hx. now apply sort_desc_In.
Qed.
End Sorting.

Lemma StronglySorted_firstn {A} (R : A -> A -> Prop) (n : nat) (l : list A) :
  StronglySorted R l -> StronglySorted R (firstn n l).
Proof.
  intros H. revert n. induction H as [|x l Hl IH Hx]; intros [|n]; simpl;
    try constructor.
  - apply IH.
  - rewrite Forall_forall in *. intros e He. apply Hx.
    now apply firstn_In in He.
Qed.

Lemma StronglySorted_split {A} (R : A -> A -> Prop) (a b : list A) :
  StronglySorted R (a ++ b) ->
  forall x y, In x a -> In y b -> R x y.
Proof.
  induction a as [|z a IH]; simpl; [tauto|].
  intros H x y [<-|Hx] Hy.
  - apply StronglySorted_inv in H as [_ H]. rewrite Forall_forall in H.
    apply H, in_or_app. now right.
  - apply StronglySorted_inv in H as [H _]. now apply IH.
Qed.

Lemma StronglySorted_keys {K V} (R : K -> K -> Prop) (d : dict K V) :
  StronglySorted R (keys d) ->
  StronglySorted (fun a b => R (fst a) (fst b)) d.
Proof.
  induction d as [|[k v] d IH]; simpl; intros H; [constructor|].
  apply StronglySorted_inv in H as [Hd Hk]. constructor; [now apply IH|].
  unfold keys in Hk. rewrite Forall_map in Hk. exact Hk.
Qed.

(** ** [most_common] on the counter of a sequence *)

Section MostCommon.
Variable K : Type.
Variable K_eq_dec : forall a b : K, {a = b} + {a <> b}.
Variable xs : list K.
Variable n : nat.

Let top : list (K * Z) := most_common n (Counter K_eq_dec xs).

Lemma sorted_counter :
  StronglySorted (ranks_before K K_eq_dec xs)
    (sort_desc (Counter K_eq_dec xs)).
Proof.
  apply (sort_desc_sorted K
           (fun a b => (first_index K K_eq_dec (fst a) xs
                        < first_index K K_eq_dec (fst b) xs)%nat)).
  apply (StronglySorted_keys
           (fun a b => (first_index K K_eq_dec a xs
                        < first_index K K_eq_dec b xs)%nat)).
  apply Counter_order.
Qed.

Lemma most_common_length : (List.length top <= n)%nat.
Proof. apply firstn_le_length. Qed.

Lemma most_common_counts (k : K) (c : Z) :
  In (k, c) top -> In k xs /\ c = Z.of_nat (count_occ K_eq_dec xs k).
Proof.
  intros H. apply Counter_In.
  apply (proj1 (sort_desc_In K (k, c) (Counter K_eq_dec xs))).
  unfold top, most_common in H. now apply firstn_In in H.
Qed.

Lemma most_common_sorted : StronglySorted (ranks_before K K_eq_dec xs) top.
Proof. apply StronglySorted_firstn, sorted_counter. Qed.

(** An element left out ranks after every item taken, and then [n] items
    were taken. *)
Lemma most_common_complete (k : K) :
  In k xs ->
  In (k, Z.of_nat (count_occ K_eq_dec xs k)) top
  \/ (List.length top = n
      /\ Forall (fun e => ranks_before K K_eq_dec xs e
                            (k, Z.of_nat (count_occ K_eq_dec xs k))) top).
Proof.
  intros Hk. set (c := Z.of_nat (count_occ K_eq_dec xs k)).
  assert (Hin : In (k, c) (sort_desc (Counter K_eq_dec xs))).
  { apply sort_desc_In. apply dict_get_In with (K_eq_dec := K_eq_dec).
    rewrite Counter_get. apply (count_occ_In K_eq_dec) in Hk.
    destruct (Nat.eqb_spec (count_occ K_eq_dec xs k) 0); [lia | reflexivity]. }
  pose proof sorted_counter as Hs.
  rewrite <- (firstn_skipn n (sort_desc (Counter K_eq_dec xs))) in Hin, Hs.
  apply in_app_or in Hin as [Hin|Hin]; [now left | right]. split.
  - unfold top, most_common. rewrite length_firstn. apply Nat.min_l.
    destruct (Nat.le_gt_cases n
                (List.length (sort_desc (Counter K_eq_dec xs))))
      as [Hle|Hgt]; [exact Hle|].
    rewrite skipn_all2 in Hin by lia. destruct Hin.
  - apply Forall_forall. intros e He.
    exact (StronglySorted_split _ _ _ Hs e (k, c) He Hin).
Qed.
End MostCommon.

End CounterFacts.

(* ================================================================== *)
(** * TextPreprocessor: statistics *)
(* ================================================================== *)

Module StatisticsFacts.
Import Py Ranking CounterFacts TextPreprocessor Examples.

(** C8. The field [most_common_words] of [get_text_statistics] is a
    sequence of at most ten pairs of a word of [tokenize_words] and its
    number of occurrences, in descending order of count, equal counts in
    the order of the first occurrence of their words; a word left out
    ranks after all ten.  On the text of the fifth scenario the ranking
    starts with the word the, counted three times, among nine words and
    two sentences. *)
Theorem most_common_words_ranked (s : text) :
  (List.length (most_common_words (get_text_statistics s)) <= 10)%nat
  /\ (forall (w : text) (c : Z),
        In (w, c) (most_common_words (get_text_statistics s)) ->
        In w (tokenize_words s)
        /\ c = Z.of_nat (count_occ text_eq_dec (tokenize_words s) w))
  /\ StronglySorted (ranks_before text text_eq_dec (tokenize_words s))
       (most_common_words (get_text_statistics s))
  /\ (forall w : text,
        In w (tokenize_words s) ->
        In (w, Z.of_nat (count_occ text_eq_dec (tokenize_words s) w))
           (most_common_words (get_text_statistics s))
        \/ (List.length (most_common_words (get_text_statistics s)) = 10%nat
            /\ Forall
                 (fun e =>
                    ranks_before text text_eq_dec (tokenize_words s) e
                      (w, Z.of_nat
                            (count_occ text_eq_dec (tokenize_words s) w)))
                 (most_common_words (get_text_statistics s))))
  /\ most_common_words (get_text_statistics cat_text)
     = [(str "the", 3%Z); (str "cat", 2%Z); (str "sat", 1%Z);
        (str "on", 1%Z); (str "mat", 1%Z); (str "ran", 1%Z)]
  /\ total_words (get_text_statistics cat_text) = 9%nat
  /\ total_sentences (get_text_statistics cat_text) = 2%nat.
Proof.
  cbn [get_text_statistics most_common_words].
  split; [apply most_common_length|].
  split; [apply most_common_counts|].
  split; [apply most_common_sorted|].
  split; [apply most_common_complete|].
  split; [|split]; vm_compute; reflexivity.
Qed.

End StatisticsFacts.

(* ================================================================== *)
(** * FrequencyAnalyzer: probabilities in binary64 *)
(* ================================================================== *)

Module ProbabilityFacts.
Import Py PyFacts FrequencyAnalyzer PersistenceFacts Normalization Examples.










(** Where nothing overflows the check passes: a quarter and three
    quarters sum to one. *)
Lemma calculate_probabilities_quarters :
  exists probabilities,
    calculate_probabilities quarter_table (S754_zero false)
    = Return probabilities
    /\ float_sum (values probabilities) = one
    /\ within_tolerance (float_sum (values probabilities)) = true.
Proof. eexists. repeat split; vm_compute; reflexivity. Qed.

End ProbabilityFacts.

(* ================================================================== *)
(** * FrequencyAnalyzer: what the file format can hold *)
(* ================================================================== *)

Module FileFacts.
Import Py PyFacts FrequencyAnalyzer Roundtrip PersistenceFacts Examples.

Lemma split_from_nonempty (sep : text) (s : text) (skip : nat) (cur : text) :
  split_from sep skip cur s <> [].
Proof.
  revert skip cur; induction s as [|c s IH]; intros skip cur; simpl.
  - discriminate.
  - destruct skip; [|apply IH]. destruct (startswith sep (c :: s)).
    + discriminate.
    + apply IH.
Qed.

Lemma join_more (sep x : text) (rest : list text) :
  rest <> [] -> join sep (x :: rest) = x ++ sep ++ join sep rest.
Proof. destruct rest; [congruence | reflexivity]. Qed.

Lemma startswith_bars (c : char) (s : text) :
  startswith delimiter (c :: s) = (c_pipe =? c)%N && startswith [c_pipe] s.
Proof. reflexivity. Qed.

Lemma startswith_bar (s : text) :
  startswith [c_pipe] s
  = match s with [] => false | b :: _ => (c_pipe =? b)%N end.
Proof. destruct s as [|b s]; [reflexivity|]. cbn [startswith]. apply andb_true_r. Qed.

Lemma startswith_delimiter (c : char) (s : text) :
  startswith delimiter (c :: s) = true ->
  c = c_pipe /\ exists s', s = c_pipe :: s'.
Proof.
  rewrite startswith_bars, startswith_bar. intros H.
  apply andb_true_iff in H as [Hc H]. apply N.eqb_eq in Hc.
  destruct s as [|b s]; [discriminate|]. apply N.eqb_eq in H.
  subst. split; [reflexivity | now exists s].
Qed.

(** Joining the pieces of a split gives the text back. *)
Lemma join_split_from (n : nat) (s cur : text) :
  (List.length s <= n)%nat ->
  join delimiter (split_from delimiter 0 cur s) = rev cur ++ s.
Proof.
  revert s cur; induction n as [|n IH]; intros s cur Hn.
  - destruct s; [|simpl in Hn; lia]. simpl. now rewrite app_nil_r.
  - destruct s as [|c s]; [simpl; now rewrite app_nil_r|].
    cbn [split_from]. destruct (startswith delimiter (c :: s)) eqn:E.
    + apply startswith_delimiter in E as [-> [s' ->]].
      change (split_from delimiter (List.length delimiter - 1) []
                (c_pipe :: s'))
        with (split_from delimiter 0 [] s').
      rewrite join_more by apply split_from_nonempty.
      rewrite IH by (simpl in Hn; lia). reflexivity.
    + rewrite IH by (simpl in Hn; lia). simpl rev.
      now rewrite <- app_assoc.
Qed.

Lemma join_split (s : text) : join delimiter (split delimiter s) = s.
Proof. exact (join_split_from (List.length s) s [] (le_n _)). Qed.

(** X1. What [save_frequencies] writes for a key that [load_frequencies]
    made of a string is that string. *)
Theorem encode_decode (s : text) : encode_key (decode_key s) = s.
Proof.
  unfold decode_key. destruct (contains delimiter s); simpl.
  - apply join_split.
  - reflexivity.
Qed.

Lemma decode_key_injective (a b : text) :
  decode_key a = decode_key b -> a = b.
Proof.
  intros H. rewrite <- (encode_decode a), <- (encode_decode b). now rewrite H.
Qed.

Lemma ends_with_bar_snoc (l : text) (c : char) :
  ends_with_bar (l ++ [c]) = (c_pipe =? c)%N.
Proof.
  induction l as [|a l IH]; [reflexivity|].
  simpl app. destruct l as [|b l]; [reflexivity | exact IH].
Qed.

Lemma contains_snoc (l : text) (c : char) :
  contains delimiter (l ++ [c])
  = contains delimiter l || (ends_with_bar l && (c_pipe =? c)%N).
Proof.
  rewrite delimiter_bars. induction l as [|a l IH].
  - cbn [app contains startswith ends_with_bar].
    destruct (c_pipe =? c)%N; reflexivity.
  - destruct l as [|b l].
    + cbn [app contains startswith ends_with_bar].
      destruct (c_pipe =? a)%N, (c_pipe =? c)%N; reflexivity.
    + change (contains [c_pipe; c_pipe] ((a :: b :: l) ++ [c]))
        with (startswith [c_pipe; c_pipe] (a :: b :: l ++ [c])
              || contains [c_pipe; c_pipe] ((b :: l) ++ [c])).
      rewrite IH.
      change (contains [c_pipe; c_pipe] (a :: b :: l))
        with (startswith [c_pipe; c_pipe] (a :: b :: l)
              || contains [c_pipe; c_pipe] (b :: l)).
      change (ends_with_bar (a :: b :: l)) with (ends_with_bar (b :: l)).
      replace (startswith [c_pipe; c_pipe] (a :: b :: l ++ [c]))
        with (startswith [c_pipe; c_pipe] (a :: b :: l)) by reflexivity.
      now rewrite orb_assoc.
Qed.

(** The state of a split: the current piece has no delimiter, and when it
    ends with a bar the text goes on with another character. *)
Definition split_state (cur s : text) : Prop :=
  contains delimiter (rev cur) = false
  /\ (ends_with_bar (rev cur) = true -> startswith [c_pipe] s = false).

(** The pieces of a split have no delimiter, and none but the last ends
    with a bar. *)
Lemma split_from_pieces (n : nat) (s cur : text) :
  (List.length s <= n)%nat -> split_state cur s ->
  forallb delimiter_free (split_from delimiter 0 cur s) = true
  /\ forallb (fun t => negb (ends_with_bar t))
       (removelast (split_from delimiter 0 cur s)) = true.
Proof.
  revert s cur; induction n as [|n IH]; intros s cur Hn [Hc Hb].
  - destruct s; [|simpl in Hn; lia]. simpl. unfold delimiter_free.
    now rewrite Hc.
  - destruct s as [|c s].
    { simpl. unfold delimiter_free. now rewrite Hc. }
    cbn [split_from]. destruct (startswith delimiter (c :: s)) eqn:E.
    + apply startswith_delimiter in E as [-> [s' ->]].
      change (split_from delimiter (List.length delimiter - 1) []
                (c_pipe :: s'))
        with (split_from delimiter 0 [] s').
      destruct (IH s' []) as [H1 H2];
        [simpl in Hn; lia | split; [reflexivity | discriminate] |].
      pose proof (split_from_nonempty delimiter s' 0 []) as Hne.
      destruct (split_from delimiter 0 [] s') as [|p ps] eqn:Ep;
        [congruence|].
      change (removelast (rev cur :: p :: ps))
        with (rev cur :: removelast (p :: ps)).
      cbn [forallb]. rewrite H2. cbn [forallb] in H1. rewrite H1.
      unfold delimiter_free at 1. rewrite Hc.
      destruct (ends_with_bar (rev cur)); [|split; reflexivity].
      specialize (Hb eq_refl). discriminate Hb.
    + apply IH; [simpl in Hn; lia|]. split.
      * simpl rev. rewrite contains_snoc, Hc. cbn [orb].
        destruct (ends_with_bar (rev cur)); [|reflexivity].
        specialize (Hb eq_refl). rewrite startswith_bar in Hb.
        now rewrite Hb.
      * simpl rev. rewrite ends_with_bar_snoc. intros Hp.
        rewrite startswith_bars, Hp in E. exact E.
Qed.

Lemma contains_cons (sep : text) (c : char) (s : text) :
  contains sep (c :: s) = startswith sep (c :: s) || contains sep s.
Proof. reflexivity. Qed.

Lemma split_two_pieces (s cur : text) :
  contains delimiter s = true ->
  (2 <= List.length (split_from delimiter 0 cur s))%nat.
Proof.
  revert cur; induction s as [|c s IH]; intros cur; [discriminate|].
  intros H. cbn [split_from].
  destruct (startswith delimiter (c :: s)) eqn:E.
  - pose proof (split_from_nonempty delimiter s
                  (List.length delimiter - 1) []) as Hne.
    destruct (split_from delimiter (List.length delimiter - 1) [] s);
      [congruence | simpl; lia].
  - apply IH. rewrite contains_cons, E in H. exact H.
Qed.

(** Every key that [load_frequencies] builds is one the format
    represents. *)
Lemma decode_key_representable (s : text) :
  representable (decode_key s) = true.
Proof.
  unfold decode_key. destruct (contains delimiter s) eqn:E.
  - unfold representable, split.
    destruct (split_from_pieces (List.length s) s [] (le_n _)) as [H1 H2];
      [split; [reflexivity | discriminate]|].
    rewrite H1, H2. pose proof (split_two_pieces s [] E) as Hlen.
    apply Nat.leb_le in Hlen. now rewrite Hlen.
  - unfold representable, delimiter_free. now rewrite E.
Qed.

Lemma decode_object_keys (o : json_object) (k : key) :
  In k (keys (decode_object o)) -> exists s, In s (keys o) /\ k = decode_key s.
Proof.
  unfold decode_object. intros H.
  apply (fold_set_keys _ _ _ key_eq_dec decode_key) in H as [[]|H].
  exact H.
Qed.


(** X2. The keys of a table returned by [load_frequencies] are scalar
    keys without the delimiter and tuple keys of at least two tokens
    without the delimiter, none but the last ending with a bar: never a
    tuple of one token or of none. *)
Theorem load_frequencies_keys
    (filename : text) (fs : filesystem) (frequencies : dict key Z) :
  fst (load_frequencies filename fs) = Return frequencies ->
  forallb representable (keys frequencies) = true.
Proof.
  unfold load_frequencies.
  destruct (fs filename) as [| |[o|]]; try discriminate.
  destruct (forallb printable (values o)); [|discriminate].
  cbn [fst]. intros [= <-]. apply forallb_forall. intros k Hk.
  apply decode_object_keys in Hk as [s [_ ->]].
  apply decode_key_representable.
Qed.

Lemma load_frequencies_keys_witness :
  fst (load_frequencies out_json
         (snd (save_frequencies singleton_table out_json empty_fs)))
  = Return [(KStr (str "a"), 1%Z)]
  /\ forallb representable (keys [(KStr (str "a"), 1%Z)]) = true.
Proof.
  assert (H : fst (load_frequencies out_json
                     (snd (save_frequencies singleton_table out_json
                             empty_fs)))
              = Return [(KStr (str "a"), 1%Z)]) by (vm_compute; reflexivity).
  split; [exact H|].
  apply (load_frequencies_keys out_json
           (snd (save_frequencies singleton_table out_json empty_fs))).
  exact H.
Defined.











(** ** Keys written under one name *)






(** The bigram of [colliding_table] is lost under the scalar key that
    follows it. *)
Lemma save_frequencies_collision_example :
  snd (save_frequencies colliding_table out_json empty_fs) out_json
  = Regular (JsonObject [(str "a||b", 5%Z)]).
Proof. vm_compute. reflexivity. Qed.

End FileFacts.

(* ================================================================== *)
(** * FrequencyAnalyzer: the keys of an n-gram table *)
(* ================================================================== *)

Module NgramKeyFacts.
Import Py PyFacts FrequencyAnalyzer Roundtrip Windows CounterFacts.
Import PersistenceFacts Examples.

Lemma slice_window {A} (l : list A) (i n : nat) :
  (i + n <= List.length l)%nat ->
  slice l (Z.of_nat i) (Z.of_nat i + Z.of_nat n) = firstn n (skipn i l).
Proof.
  intros H. unfold slice, clamp_index.
  destruct (Z.ltb_spec (Z.of_nat i) 0) as [Hneg|_]; [lia|].
  destruct (Z.ltb_spec (Z.of_nat i + Z.of_nat n) 0) as [Hneg|_]; [lia|].
  replace (Z.to_nat (Z.min (Z.of_nat i) (Z.of_nat (List.length l))))
    with i by lia.
  replace (Z.to_nat
             (Z.min (Z.of_nat i + Z.of_nat n) (Z.of_nat (List.length l))
              - Z.min (Z.of_nat i) (Z.of_nat (List.length l))))
    with n by lia.
  reflexivity.
Qed.

(** The slices taken by the loop of [calculate_ngrams] are the windows. *)
Lemma calculate_ngrams_windows (tokens : list text) (n : Z) :
  n <> 1%Z -> (0 <= n)%Z ->
  calculate_ngrams tokens n
  = Counter key_eq_dec (List.map KTup (windows tokens (Z.to_nat n))).
Proof.
  intros Hn1 Hn0. unfold calculate_ngrams.
  destruct (Z.eqb_spec n 1) as [|_]; [contradiction|].
  f_equal. unfold windows, range. rewrite map_map.
  replace (Z.to_nat (Z.of_nat (List.length tokens) - n + 1))
    with (List.length tokens + 1 - Z.to_nat n)%nat by lia.
  rewrite map_map. apply map_ext_in. intros i Hi. apply in_seq in Hi.
  f_equal. unfold window.
  replace n with (Z.of_nat (Z.to_nat n)) at 1 by lia.
  apply slice_window. lia.
Qed.

Lemma window_length (tokens : list text) (n : nat) (w : list text) :
  In w (windows tokens n) -> List.length w = n.
Proof.
  unfold windows, window. intros H. apply in_map_iff in H as [i [<- Hi]].
  apply in_seq in Hi. rewrite length_firstn, length_skipn. lia.
Qed.


Lemma Counter_In_intro {K} (K_eq_dec : forall a b : K, {a = b} + {a <> b})
    (xs : list K) (k : K) :
  In k xs -> In (k, Z.of_nat (count_occ K_eq_dec xs k)) (Counter K_eq_dec xs).
Proof.
  intros H. apply (dict_get_In K K_eq_dec). rewrite Counter_get.
  apply (count_occ_In K_eq_dec) in H.
  destruct (Nat.eqb_spec (count_occ K_eq_dec xs k) 0); [lia | reflexivity].
Qed.

Lemma count_tuples (ws : list (list text)) (w : list text) :
  count_occ key_eq_dec (List.map KTup ws) (KTup w)
  = count_occ window_eq_dec ws w.
Proof.
  symmetry. apply count_occ_map. intros a b H. now injection H.
Qed.

Lemma count_scalars (ts : list text) (t : text) :
  count_occ key_eq_dec (List.map KStr ts) (KStr t)
  = count_occ text_eq_dec ts t.
Proof.
  symmetry. apply count_occ_map. intros a b H. now injection H.
Qed.

(** X5. For [n >= 2] the items of [calculate_ngrams tokens n] are the
    distinct windows of [n] consecutive tokens, as tuples of exactly [n]
    tokens, each with the number of positions at which it occurs. *)
Theorem calculate_ngrams_tuples (tokens : list text) (n : Z) :
  (2 <= n)%Z ->
  forall (k : key) (c : Z),
    In (k, c) (calculate_ngrams tokens n)
    <-> exists w : list text,
          k = KTup w
          /\ In w (windows tokens (Z.to_nat n))
          /\ List.length w = Z.to_nat n
          /\ c = Z.of_nat
                   (count_occ window_eq_dec (windows tokens (Z.to_nat n)) w).
Proof.
  intros Hn k c. rewrite calculate_ngrams_windows by lia. split.
  - intros H. apply Counter_In in H as [Hk ->].
    apply in_map_iff in Hk as [w [<- Hw]]. exists w.
    repeat split; [exact Hw | now apply (window_length tokens) |].
    now rewrite count_tuples.
  - intros (w & -> & Hw & _ & ->). rewrite <- count_tuples.
    apply Counter_In_intro. now apply in_map.
Qed.

Lemma calculate_ngrams_tuples_witness :
  (2 <= 2)%Z
  /\ (In (KTup [str "a"; str "b"], 2%Z) (calculate_ngrams abab 2)
      <-> exists w : list text,
            KTup [str "a"; str "b"] = KTup w
            /\ In w (windows abab (Z.to_nat 2))
            /\ List.length w = Z.to_nat 2
            /\ 2%Z = Z.of_nat
                       (count_occ window_eq_dec
                          (windows abab (Z.to_nat 2)) w)).
Proof.
  split; [lia|].
  apply (calculate_ngrams_tuples abab 2); lia.
Defined.

(** X6. The items of [calculate_ngrams tokens 1] are the distinct tokens,
    as scalar keys, each with its number of occurrences. *)
Theorem calculate_ngrams_unigrams (tokens : list text) (k : key) (c : Z) :
  In (k, c) (calculate_ngrams tokens 1)
  <-> exists t : text,
        k = KStr t /\ In t tokens
        /\ c = Z.of_nat (count_occ text_eq_dec tokens t).
Proof.
  unfold calculate_ngrams. cbn [Z.eqb Pos.eqb]. split.
  - intros H. apply Counter_In in H as [Hk ->].
    apply in_map_iff in Hk as [t [<- Ht]]. exists t.
    repeat split; [exact Ht | now rewrite count_scalars].
  - intros (t & -> & Ht & ->). rewrite <- count_scalars.
    apply Counter_In_intro. now apply in_map.
Qed.

Lemma counter_repeat {K} (K_eq_dec : forall a b : K, {a = b} + {a <> b})
    (x : K) (m : nat) (j : Z) :
  fold_left (counter_add K_eq_dec) (repeat x m) [(x, j)]
  = [(x, (j + Z.of_nat m)%Z)].
Proof.
  revert j; induction m as [|m IH]; intros j.
  - simpl. now rewrite Z.add_0_r.
  - cbn [repeat fold_left]. unfold counter_add at 2. simpl.
    destruct (K_eq_dec x x); [|congruence].
    rewrite IH. do 2 f_equal. lia.
Qed.

(** X7. With [n = 0] every slice is empty: the table has one key, the
    empty tuple, counted once per position, one more than there are
    tokens. *)
Theorem calculate_ngrams_zero (tokens : list text) :
  calculate_ngrams tokens 0
  = [(KTup [], (Z.of_nat (List.length tokens) + 1)%Z)].
Proof.
  rewrite calculate_ngrams_windows by lia.
  unfold windows, window. cbn [Z.to_nat firstn].
  rewrite map_map, map_const, length_seq, Nat.sub_0_r.
  replace (List.length tokens + 1)%nat
    with (S (List.length tokens)) by lia.
  unfold Counter. cbn [repeat fold_left].
  change (counter_add key_eq_dec [] (KTup [])) with [(KTup [], 1%Z)].
  rewrite counter_repeat. do 2 f_equal. lia.
Qed.

(** X8. Whatever [n], the keys of [calculate_ngrams tokens n] are
    pairwise distinct and every count is at least one. *)
Theorem calculate_ngrams_invariant (tokens : list text) (n : Z) :
  NoDup (keys (calculate_ngrams tokens n))
  /\ forall (k : key) (c : Z),
       In (k, c) (calculate_ngrams tokens n) -> (1 <= c)%Z.
Proof.
  unfold calculate_ngrams. destruct (n =? 1)%Z.
  - split; [apply Counter_NoDup|]. intros k c H.
    apply Counter_In in H as [Hk ->].
    apply (count_occ_In key_eq_dec) in Hk. lia.
  - split; [apply Counter_NoDup|]. intros k c H.
    apply Counter_In in H as [Hk ->].
    apply (count_occ_In key_eq_dec) in Hk. lia.
Qed.










End NgramKeyFacts.

(* ================================================================== *)
(** * TextPreprocessor: the tokenizers *)
(* ================================================================== *)

Module TokenizerFacts.
Import Py PyFacts StringFacts TextPreprocessor SummaryFacts Examples.

(** Whitespace or a terminator: a character that belongs to no word and
    to no sentence. *)
Definition blank (c : char) : bool := is_space c || is_terminator c.

Definition spaces (s : text) : Prop := Forall (fun c => is_space c = true) s.

Lemma drop_while_prefix (q : char -> bool) (s : text) :
  exists p, s = p ++ drop_while q s /\ Forall (fun c => q c = true) p.
Proof.
  induction s as [|c s [p [IH Hp]]]; simpl.
  - exists []. split; [reflexivity | constructor].
  - destruct (q c) eqn:E.
    + exists (c :: p). split; [simpl; now rewrite <- IH | now constructor].
    + exists []. split; [reflexivity | constructor].
Qed.

Lemma drop_while_nil (q : char -> bool) (s : text) :
  drop_while q s = [] <-> Forall (fun c => q c = true) s.
Proof.
  induction s as [|c s IH]; simpl.
  - split; [constructor | reflexivity].
  - destruct (q c) eqn:E.
    + rewrite IH. split; [now constructor | now inversion 1].
    + split; [discriminate | inversion 1; congruence].
Qed.

Lemma spaces_rev (s : text) : spaces (rev s) <-> spaces s.
Proof.
  unfold spaces. split; intros H.
  - rewrite <- (rev_involutive s). now apply Forall_rev.
  - now apply Forall_rev.
Qed.

(** [strip] leaves nothing exactly of the texts made of whitespace. *)
Lemma strip_nil (s : text) : strip s = [] <-> spaces s.
Proof.
  unfold strip. split.
  - intros H. apply (f_equal (@rev char)) in H.
    rewrite rev_involutive in H. simpl in H.
    apply (proj1 (drop_while_nil is_space _)) in H.
    apply (proj1 (spaces_rev _)) in H.
    destruct (drop_while_prefix is_space s) as [p [Hp Hs]].
    unfold spaces. rewrite Hp. apply Forall_app. split; assumption.
  - intros H. apply drop_while_nil in H. rewrite H. reflexivity.
Qed.

Lemma filter_nil {A} (f : A -> bool) (l : list A) :
  filter f l = [] <-> Forall (fun x => f x = false) l.
Proof.
  induction l as [|x l IH]; simpl.
  - split; [constructor | reflexivity].
  - destruct (f x) eqn:E.
    + split; [discriminate | inversion 1; congruence].
    + rewrite IH. split; [now constructor | now inversion 1].
Qed.

(** ** Sentences *)

Lemma re_split_from_spaces (s : text) (in_run : bool) (cur : text) :
  Forall spaces (re_split_from in_run cur s)
  <-> spaces cur /\ Forall (fun c => blank c = true) s.
Proof.
  revert in_run cur; induction s as [|c s IH]; intros in_run cur; simpl.
  - split.
    + intros H. inversion H; subst. split; [now apply spaces_rev | constructor].
    + intros [H _]. constructor; [now apply spaces_rev | constructor].
  - destruct (is_terminator c) eqn:Et.
    + assert (Hb : blank c = true) by (unfold blank; rewrite Et; apply orb_true_r).
      destruct in_run.
      * rewrite IH. split; intros [H1 H2]; split; try assumption.
        -- now constructor.
        -- now inversion H2.
      * split.
        -- intros H. inversion H as [|? ? H1 H2]; subst.
           apply IH in H2 as [_ H2]. split; [now apply spaces_rev|].
           now constructor.
        -- intros [H1 H2]. inversion H2; subst.
           constructor; [now apply spaces_rev|].
           apply IH. split; [constructor | assumption].
    + rewrite IH. unfold spaces, blank. split.
      * intros [H1 H2]. inversion H1; subst. split; [assumption|].
        constructor; [|assumption]. rewrite Et. now rewrite orb_false_r.
      * intros [H1 H2]. inversion H2 as [|? ? Hc Hs]; subst.
        rewrite Et, orb_false_r in Hc. split; [now constructor | assumption].
Qed.

(** A text has no sentence exactly when it is made of whitespace and
    terminators. *)
Lemma tokenize_sentences_nil (s : text) :
  tokenize_sentences s = [] <-> Forall (fun c => blank c = true) s.
Proof.
  unfold tokenize_sentences, re_split_terminators.
  split.
  - intros H. apply map_eq_nil in H. apply filter_nil in H.
    apply (re_split_from_spaces s false []).
    revert H. apply Forall_impl. intros p Hp. apply strip_nil.
    destruct (strip p); [reflexivity | discriminate].
  - intros H.
    assert (Hs : Forall spaces (re_split_from false [] s)).
    { apply re_split_from_spaces. split; [constructor | exact H]. }
    replace (filter (fun p => nonempty (strip p)) (re_split_from false [] s))
      with (@nil text); [reflexivity|].
    symmetry. apply filter_nil. revert Hs. apply Forall_impl.
    intros p Hp. apply strip_nil in Hp. now rewrite Hp.
Qed.

(** X10. A sentence of [tokenize_sentences] is not empty, holds no
    terminator and neither begins nor ends with whitespace. *)
Theorem tokenize_sentences_shape (s x : text) :
  In x (tokenize_sentences s) ->
  x <> []
  /\ Forall (fun c => is_terminator c = false) x
  /\ strip x = x
  /\ (forall c : char,
        hd_error x = Some c \/ hd_error (rev x) = Some c ->
        is_space c = false).
Proof.
  intros H. destruct (tokenize_sentences_spec s x H) as [Hne Hp].
  split; [exact Hne|]. split; [exact Hp|].
  unfold tokenize_sentences in H. apply in_map_iff in H as [p [<- _]].
  destruct (strip_clean p) as [H1 H2]. split.
  - now apply strip_fixed.
  - intros c [Hc|Hc].
    + destruct (strip p); [discriminate|]. injection Hc as <-. exact H1.
    + destruct (rev (strip p)); [discriminate|]. injection Hc as <-. exact H2.
Qed.

Lemma tokenize_sentences_shape_witness :
  In (str "b") (tokenize_sentences three_sentences)
  /\ (str "b" <> []
      /\ Forall (fun c => is_terminator c = false) (str "b")
      /\ strip (str "b") = str "b"
      /\ (forall c : char,
            hd_error (str "b") = Some c \/ hd_error (rev (str "b")) = Some c ->
            is_space c = false)).
Proof.
  assert (H : In (str "b") (tokenize_sentences three_sentences)).
  { vm_compute. tauto. }
  split; [exact H|].
  exact (tokenize_sentences_shape three_sentences (str "b") H).
Defined.

(** ** Words *)

Definition solid (P : char -> Prop) (c : char) : Prop :=
  P c /\ is_space c = false.

(** The pieces of [split] are not empty and hold no whitespace. *)
Lemma split_ws_from_pieces (P : char -> Prop) (s : text) :
  Forall P s ->
  forall cur : text,
    Forall (solid P) cur ->
    Forall (fun w => w <> [] /\ Forall (solid P) w) (split_ws_from cur s).
Proof.
  induction 1 as [|c s Hc Hs IH]; intros cur Hcur; simpl.
  - destruct cur as [|a cur]; [constructor|].
    constructor; [|constructor].
    split; [apply rev_not_nil; discriminate | now apply Forall_rev].
  - destruct (is_space c) eqn:E.
    + destruct cur as [|a cur]; [apply IH; constructor|].
      constructor; [|apply IH; constructor].
      split; [apply rev_not_nil; discriminate | now apply Forall_rev].
    + apply IH. constructor; [now split | exact Hcur].
Qed.

Lemma filter_all {A} (f : A -> bool) (l : list A) :
  Forall (fun x => f x = true) l -> filter f l = l.
Proof.
  induction 1 as [|x l Hx Hl IH]; simpl; [reflexivity|].
  now rewrite Hx, IH.
Qed.

Lemma filter_Forall {A} (f : A -> bool) (l : list A) :
  Forall (fun x => f x = true /\ In x l) (filter f l).
Proof.
  apply Forall_forall. intros x Hx. apply filter_In in Hx. tauto.
Qed.

(** X11. A word of [tokenize_words] is not empty and is made of
    characters of the text that are neither whitespace nor terminators;
    the final filter of empty strings removes nothing. *)
Theorem tokenize_words_shape (s : text) :
  (forall w : text,
     In w (tokenize_words s) ->
     w <> []
     /\ Forall (fun c => In c s /\ is_terminator c = false
                         /\ is_space c = false) w)
  /\ tokenize_words s
     = split_ws (filter (fun c => negb (is_terminator c)) s).
Proof.
  unfold tokenize_words, split_ws.
  pose proof (split_ws_from_pieces
                (fun c => negb (is_terminator c) = true /\ In c s)
                (filter (fun c => negb (is_terminator c)) s)
                (filter_Forall _ s) [] (Forall_nil _)) as H.
  assert (E : filter nonempty
                (split_ws_from [] (filter (fun c => negb (is_terminator c)) s))
              = split_ws_from [] (filter (fun c => negb (is_terminator c)) s)).
  { apply filter_all. revert H. apply Forall_impl. intros w [Hne _].
    destruct w; [congruence | reflexivity]. }
  rewrite E. split; [|reflexivity].
  intros w Hw. rewrite Forall_forall in H. destruct (H w Hw) as [Hne Hc].
  split; [exact Hne|]. revert Hc. apply Forall_impl.
  intros c [[Ht Hin] Hsp]. apply negb_true_iff in Ht. tauto.
Qed.

Lemma split_ws_from_nil (s cur : text) :
  split_ws_from cur s = [] <-> cur = [] /\ spaces s.
Proof.
  revert cur; induction s as [|c s IH]; intros cur; simpl.
  - destruct cur; split; try discriminate; try tauto.
    + intros _. split; [reflexivity | constructor].
    + intros [H _]. discriminate H.
  - destruct (is_space c) eqn:E.
    + destruct cur as [|a cur].
      * rewrite IH. unfold spaces. split.
        -- intros [_ H]. split; [reflexivity | now constructor].
        -- intros [_ H]. split; [reflexivity | now inversion H].
      * split; [discriminate | intros [H _]; discriminate H].
    + rewrite IH. split; [intros [H _]; discriminate H|].
      intros [_ H]. inversion H; congruence.
Qed.

Lemma filter_spaces (s : text) :
  spaces (filter (fun c => negb (is_terminator c)) s)
  <-> Forall (fun c => blank c = true) s.
Proof.
  unfold spaces, blank. induction s as [|c s IH]; simpl.
  - split; constructor.
  - destruct (is_terminator c) eqn:E; simpl.
    + rewrite IH. split; [|now inversion 1].
      intros H. constructor; [|exact H]. rewrite E. apply orb_true_r.
    + split.
      * intros H. inversion H; subst. constructor; [|now apply IH].
        now rewrite E, orb_false_r.
      * intros H. inversion H as [|? ? Hc Hs]; subst.
        rewrite E, orb_false_r in Hc.
        constructor; [exact Hc | now apply IH].
Qed.

(** A text has no word exactly when it is made of whitespace and
    terminators. *)
Lemma tokenize_words_nil (s : text) :
  tokenize_words s = [] <-> Forall (fun c => blank c = true) s.
Proof.
  rewrite (proj2 (tokenize_words_shape s)). unfold split_ws.
  rewrite split_ws_from_nil, filter_spaces. tauto.
Qed.

(** X12. A text has no word exactly when it has no sentence, and that is
    when each of its characters is whitespace or a terminator. *)
Theorem no_words_iff_no_sentences (s : text) :
  (tokenize_words s = [] <-> tokenize_sentences s = [])
  /\ (tokenize_words s = []
      <-> Forall (fun c => is_space c || is_terminator c = true) s).
Proof.
  split.
  - rewrite tokenize_words_nil, tokenize_sentences_nil. tauto.
  - apply tokenize_words_nil.
Qed.

(** X13. Every sentence of [tokenize_sentences] has at least one word:
    the entries of [get_sentence_lengths] on them are at least one. *)
Theorem sentence_lengths_positive (s : text) :
  Forall (fun n => (1 <= n)%nat)
    (get_sentence_lengths (tokenize_sentences s)).
Proof.
  unfold get_sentence_lengths. rewrite Forall_map.
  apply Forall_forall. intros x Hx.
  destruct (tokenize_sentences_shape s x Hx) as (Hne & Hp & _ & Hc).
  destruct (tokenize_words x) as [|w ws] eqn:E; [|simpl; lia].
  exfalso. apply tokenize_words_nil in E.
  destruct x as [|c x]; [congruence|].
  inversion E as [|? ? Hb _]; subst. inversion Hp as [|? ? Ht _]; subst.
  specialize (Hc c (or_introl eq_refl)).
  unfold blank in Hb. rewrite Hc, Ht in Hb. discriminate Hb.
Qed.

(** ** A text without terminators *)

Lemma re_split_from_one (s cur : text) :
  Forall plain s -> re_split_from false cur s = [rev cur ++ s].
Proof.
  intros H. revert cur; induction H as [|c s Hc Hs IH]; intros cur; simpl.
  - now rewrite app_nil_r.
  - unfold plain in Hc. rewrite Hc, IH. simpl rev.
    now rewrite <- app_assoc.
Qed.

Lemma strip_decompose (s : text) :
  exists p q, s = p ++ strip s ++ q /\ spaces p /\ spaces q.
Proof.
  unfold strip.
  destruct (drop_while_prefix is_space s) as [p [Hp Hps]].
  destruct (drop_while_prefix is_space (rev (drop_while is_space s)))
    as [q [Hq Hqs]].
  exists p, (rev q). split; [|split].
  - rewrite <- rev_app_distr, <- Hq, rev_involutive. exact Hp.
  - exact Hps.
  - now apply spaces_rev.
Qed.

Lemma split_ws_leading (p t : text) :
  spaces p -> split_ws_from [] (p ++ t) = split_ws_from [] t.
Proof.
  induction 1 as [|c p Hc Hp IH]; simpl; [reflexivity|]. now rewrite Hc.
Qed.

Lemma split_ws_trailing (a q cur : text) :
  spaces q -> split_ws_from cur (a ++ q) = split_ws_from cur a.
Proof.
  intros Hq. revert cur; induction a as [|c a IH]; intros cur.
  - simpl app. revert cur. induction Hq as [|c q Hc Hq IH]; intros cur;
      [reflexivity|].
    simpl. rewrite Hc. destruct cur as [|x cur].
    + rewrite IH. reflexivity.
    + rewrite IH. reflexivity.
  - simpl. destruct (is_space c).
    + destruct cur; now rewrite IH.
    + apply IH.
Qed.

(** Whitespace at the ends of a text makes no word. *)
Lemma split_ws_strip (s : text) : split_ws (strip s) = split_ws s.
Proof.
  destruct (strip_decompose s) as [p [q [E [Hp Hq]]]].
  unfold split_ws. rewrite E at 2.
  now rewrite (split_ws_leading p _ Hp), (split_ws_trailing _ q [] Hq).
Qed.

Lemma tokenize_words_plain (s : text) :
  Forall plain s -> tokenize_words s = split_ws s.
Proof.
  intros H. rewrite (proj2 (tokenize_words_shape s)). f_equal.
  apply filter_all. revert H. apply Forall_impl. intros c Hc.
  unfold plain in Hc. now rewrite Hc.
Qed.

(** X14. A text without terminators is one sentence, its stripped self,
    or none when it is whitespace only; the words of its sentences are
    then the words of the text, in number. *)
Theorem plain_text_coverage (s : text) :
  Forall (fun c => is_terminator c = false) s ->
  tokenize_sentences s = (if nonempty (strip s) then [strip s] else [])
  /\ list_sum (get_sentence_lengths (tokenize_sentences s))
     = List.length (tokenize_words s).
Proof.
  intros H.
  assert (E : tokenize_sentences s
              = if nonempty (strip s) then [strip s] else []).
  { unfold tokenize_sentences, re_split_terminators.
    rewrite (re_split_from_one s [] H). simpl.
    destruct (nonempty (strip s)); reflexivity. }
  split; [exact E|]. rewrite E.
  rewrite (tokenize_words_plain s H), <- split_ws_strip.
  destruct (strip s) as [|c t] eqn:Es; [reflexivity|].
  cbn [nonempty]. unfold get_sentence_lengths, list_sum.
  cbn [List.map fold_right]. rewrite Nat.add_0_r.
  f_equal. apply tokenize_words_plain.
  rewrite <- Es. now apply strip_Forall.
Qed.

Lemma plain_text_coverage_witness :
  Forall (fun c => is_terminator c = false) (str " the cat sat ")
  /\ (tokenize_sentences (str " the cat sat ")
      = (if nonempty (strip (str " the cat sat "))
         then [strip (str " the cat sat ")] else [])
      /\ list_sum (get_sentence_lengths
                     (tokenize_sentences (str " the cat sat ")))
         = List.length (tokenize_words (str " the cat sat "))).
Proof.
  assert (H : Forall (fun c => is_terminator c = false)
                (str " the cat sat ")).
  { repeat constructor. }
  split; [exact H|].
  exact (plain_text_coverage (str " the cat sat ") H).
Defined.

(** ** Characters *)

Lemma concat_chars (s : text) : List.concat (chars s) = s.
Proof.
  unfold chars. induction s as [|c s IH]; simpl; [reflexivity|].
  now rewrite IH.
Qed.

Lemma tidy_from_spaces (s : text) (b : bool) :
  tidy_from b s = true ->
  Forall (fun c => is_space c = true -> c = c_space) s.
Proof.
  revert b; induction s as [|c s IH]; intros b; simpl; [constructor|].
  destruct (is_space c) eqn:E.
  - intros H. apply andb_true_iff in H as [H Hs].
    apply andb_true_iff in H as [Hc _]. apply N.eqb_eq in Hc.
    constructor; [intros _; exact Hc | exact (IH true Hs)].
  - intros H. constructor; [congruence | exact (IH false H)].
Qed.

(** In collapsed whitespace no whitespace character follows another. *)
Lemma tidy_from_apart (s : text) (b : bool) (i : nat) (c d : char) :
  tidy_from b s = true ->
  nth_error s i = Some c -> nth_error s (S i) = Some d ->
  is_space c = true -> is_space d = false.
Proof.
  revert b i; induction s as [|x s IH]; intros b i; [destruct i; discriminate|].
  simpl tidy_from. intros Ht Hc Hd Hsp.
  assert (Ht' : exists b', tidy_from b' s = true
                           /\ (is_space x = true -> b' = true)).
  { destruct (is_space x).
    - apply andb_true_iff in Ht as [_ Ht]. now exists true.
    - exists false. split; [exact Ht | discriminate]. }
  destruct Ht' as [b' [Hs Hb]].
  destruct i as [|i].
  - simpl in Hc, Hd. injection Hc as ->. specialize (Hb Hsp). subst b'.
    destruct s as [|y s]; [discriminate|]. simpl in Hd. injection Hd as ->.
    simpl in Hs. destruct (is_space d); [|reflexivity].
    rewrite andb_false_r in Hs. discriminate Hs.
  - simpl in Hc. exact (IH b' i Hs Hc Hd Hsp).
Qed.

Lemma collapse_from_solid (s : text) (b : bool) :
  filter (fun c => negb (is_space c)) (collapse_from b s)
  = filter (fun c => negb (is_space c)) s.
Proof.
  revert b; induction s as [|c s IH]; intros b; simpl; [reflexivity|].
  destruct (is_space c) eqn:E; simpl.
  - destruct b; [apply IH|]. simpl.
    replace (is_space c_space) with true by reflexivity. simpl. apply IH.
  - rewrite E. simpl. now rewrite IH.
Qed.

(** The shape of a collapsed and stripped text: a fixed point of [strip],
    its whitespace is single spaces. *)
Lemma collapsed_stripped (t : text) :
  strip (strip (collapse_ws t)) = strip (collapse_ws t)
  /\ Forall (fun c => is_space c = true -> c = c_space)
       (strip (collapse_ws t))
  /\ (forall (i : nat) (c d : char),
        nth_error (strip (collapse_ws t)) i = Some c ->
        nth_error (strip (collapse_ws t)) (S i) = Some d ->
        is_space c = true -> is_space d = false).
Proof.
  assert (Ht : tidy_from false (strip (collapse_ws t)) = true)
    by apply strip_tidy, collapse_from_tidy.
  split; [apply (strip_collapse_fixed t)|]. split.
  - exact (tidy_from_spaces _ _ Ht).
  - intros i c d. exact (tidy_from_apart _ _ i c d Ht).
Qed.

(** X15. With [include_space] false, [tokenize_chars] drops the space
    characters (U+0020) and nothing else: every other character of the
    text, a tab or a newline too, is a token, in order. *)
Theorem tokenize_chars_without_spaces (s : text) :
  (forall t : text,
     In t (tokenize_chars s false)
     <-> exists c : char, t = [c] /\ In c s /\ c <> c_space)
  /\ List.concat (tokenize_chars s false)
     = filter (fun c => negb (c =? c_space)%N) s
  /\ (List.length (tokenize_chars s false)
      + count_occ N.eq_dec s c_space = List.length s)%nat.
Proof.
  unfold tokenize_chars. split; [|split].
  - intros t. unfold chars. rewrite in_map_iff. split.
    + intros [c [<- Hc]]. apply filter_In in Hc as [Hin Hc].
      apply negb_true_iff, N.eqb_neq in Hc. now exists c.
    + intros [c [-> [Hin Hc]]]. exists c. split; [reflexivity|].
      apply filter_In. split; [exact Hin|].
      now apply negb_true_iff, N.eqb_neq.
  - apply concat_chars.
  - unfold chars. rewrite length_map.
    induction s as [|c s IH]; [reflexivity|].
    cbn [filter count_occ List.length].
    destruct (N.eqb_spec c c_space) as [->|Hne]; cbn [negb].
    + destruct (N.eq_dec c_space c_space); [|congruence]. lia.
    + destruct (N.eq_dec c c_space); [congruence|].
      cbn [List.length]. lia.
Qed.

(** X16. With [include_space] true, every token of [tokenize_chars] is
    one character; a whitespace token is the space and is never followed
    by another; the characters that are not whitespace are the ones of
    the text, in order. *)
Theorem tokenize_chars_with_spaces (s : text) :
  Forall (fun t => exists c : char,
                     t = [c] /\ (is_space c = true -> c = c_space))
    (tokenize_chars s true)
  /\ (forall i : nat,
        nth_error (tokenize_chars s true) i = Some [c_space] ->
        nth_error (tokenize_chars s true) (S i) <> Some [c_space])
  /\ filter (fun c => negb (is_space c)) (List.concat (tokenize_chars s true))
     = filter (fun c => negb (is_space c)) s.
Proof.
  unfold tokenize_chars.
  assert (Ht : tidy_from false (collapse_ws s) = true)
    by apply collapse_from_tidy.
  split; [|split].
  - unfold chars. rewrite Forall_map.
    pose proof (tidy_from_spaces _ _ Ht) as H. revert H.
    apply Forall_impl. intros c Hc. now exists c.
  - intros i Hi Hj. unfold chars in Hi, Hj.
    rewrite nth_error_map in Hi, Hj.
    destruct (nth_error (collapse_ws s) i) as [c|] eqn:Ec; [|discriminate].
    destruct (nth_error (collapse_ws s) (S i)) as [d|] eqn:Ed;
      [|discriminate].
    injection Hi as ->. injection Hj as ->.
    pose proof (tidy_from_apart _ _ i c_space c_space Ht Ec Ed eq_refl) as H.
    discriminate H.
  - rewrite concat_chars. apply collapse_from_solid.
Qed.

End TokenizerFacts.

(* ================================================================== *)
(** * TextPreprocessor: cleaning, and more on normalization *)
(* ================================================================== *)

Module CleanFacts.
Import Py PyFacts StringFacts TextPreprocessor Database NormalizeFacts.
Import SummaryFacts TokenizerFacts Examples.

Section Clean.
Variable U : unicode.

(** What collapsing does to characters that satisfy [Q]: the ones that
    are not whitespace stay, the others become the space. *)
Lemma collapse_from_chars (Q : char -> Prop) (t : text) (b : bool) :
  Forall Q t ->
  Forall (fun c => (Q c /\ is_space c = false) \/ c = c_space)
    (collapse_from b t).
Proof.
  intros H. revert b; induction H as [|c t Hc Ht IH]; intros b; simpl.
  - constructor.
  - destruct (is_space c) eqn:E.
    + destruct b; [apply IH|]. constructor; [now right | apply IH].
    + constructor; [left; now split | apply IH].
Qed.

Lemma clean_text_chars (s : text) (c : char) :
  In c (clean_text U s) -> is_word U c = true \/ c = c_space.
Proof.
  unfold clean_text, collapse_ws. intros H.
  assert (F : Forall (fun c => (is_word U c || is_space c = true
                                 /\ is_space c = false) \/ c = c_space)
                (strip (collapse_from false
                          (filter (fun c => is_word U c || is_space c) s)))).
  { apply strip_Forall, collapse_from_chars.
    pose proof (filter_Forall (fun c => is_word U c || is_space c) s) as F.
    revert F. apply Forall_impl. tauto. }
  rewrite Forall_forall in F. destruct (F c H) as [[Hw Hs]|Hc].
  - left. rewrite Hs, orb_false_r in Hw. exact Hw.
  - now right.
Qed.

(** X17. Every character of [clean_text] is a word character or the
    space; the text neither begins nor ends with whitespace and no space
    follows another. *)
Theorem clean_text_shape (s : text) :
  (forall c : char,
     In c (clean_text U s) -> is_word U c = true \/ c = c_space)
  /\ strip (clean_text U s) = clean_text U s
  /\ (forall i : nat,
        nth_error (clean_text U s) i = Some c_space ->
        nth_error (clean_text U s) (S i) <> Some c_space).
Proof.
  split; [apply clean_text_chars|].
  unfold clean_text.
  destruct (collapsed_stripped
              (filter (fun c => is_word U c || is_space c) s))
    as (H1 & _ & H3).
  split; [exact H1|]. intros i Hi Hj.
  pose proof (H3 i c_space c_space Hi Hj eq_refl) as H. discriminate H.
Qed.

(** X18. [clean_text] is idempotent. *)
Theorem clean_text_idempotent (s : text) :
  clean_text U (clean_text U s) = clean_text U s.
Proof.
  unfold clean_text at 1.
  assert (E : filter (fun c => is_word U c || is_space c) (clean_text U s)
              = clean_text U s).
  { apply filter_all, Forall_forall. intros c Hc.
    apply clean_text_chars in Hc as [Hc| ->].
    - now rewrite Hc.
    - apply orb_true_r. }
  rewrite E. unfold clean_text.
  destruct (strip_collapse_fixed
              (filter (fun c => is_word U c || is_space c) s)) as [Hc Hs].
  now rewrite Hc, Hs.
Qed.

(** X19. Whatever [preserve_sentences], the text of [normalize_text]
    neither begins nor ends with whitespace, its whitespace characters
    are spaces, and none follows another. *)
Theorem normalize_text_whitespace (s : text) (preserve_sentences : bool) :
  strip (normalize_text U s preserve_sentences)
  = normalize_text U s preserve_sentences
  /\ Forall (fun c => is_space c = true -> c = c_space)
       (normalize_text U s preserve_sentences)
  /\ (forall i : nat,
        nth_error (normalize_text U s preserve_sentences) i = Some c_space ->
        nth_error (normalize_text U s preserve_sentences) (S i)
        <> Some c_space).
Proof.
  rewrite normalize_text_steps.
  destruct (collapsed_stripped
              ((if preserve_sentences then blank_punctuation U
                else blank_nonword U None) (standardized U s)))
    as (H1 & H2 & H3).
  split; [exact H1|]. split; [exact H2|]. intros i Hi Hj.
  pose proof (H3 i c_space c_space Hi Hj eq_refl) as H. discriminate H.
Qed.

(** X20. With [preserve_sentences] false every character of
    [normalize_text] is a word character or the space: since the
    apostrophe is not a word character, no apostrophe is left, the one of
    a contraction no more than another. *)
Theorem normalize_text_words_only (s : text) :
  is_alnum U c_apos = false ->
  (forall c : char,
     In c (normalize_text U s false) -> is_word U c = true \/ c = c_space)
  /\ ~ In c_apos (normalize_text U s false).
Proof.
  intros Ha.
  assert (H : forall c : char,
            In c (normalize_text U s false) ->
            is_word U c = true \/ c = c_space).
  { intros c Hc. rewrite normalize_text_steps in Hc.
    assert (F : Forall (fun c => (word_or_space U c /\ is_space c = false)
                                 \/ c = c_space)
                  (strip (collapse_ws
                            (blank_nonword U None (standardized U s))))).
    { apply strip_Forall, collapse_from_chars, blank_nonword_word_or_space. }
    rewrite Forall_forall in F. destruct (F c Hc) as [[Hw Hs]|E].
    - left. unfold word_or_space in Hw. now rewrite Hs, orb_false_r in Hw.
    - now right. }
  split; [exact H|]. intros Hin. apply H in Hin as [Hw|E].
  - unfold is_word in Hw. rewrite Ha in Hw. discriminate Hw.
  - discriminate E.
Qed.

End Clean.

Lemma normalize_text_words_only_witness :
  is_alnum ascii_unicode c_apos = false
  /\ ((forall c : char,
         In c (normalize_text ascii_unicode (str "it's") false) ->
         is_word ascii_unicode c = true \/ c = c_space)
      /\ ~ In c_apos (normalize_text ascii_unicode (str "it's") false)).
Proof.
  split; [reflexivity|].
  apply (normalize_text_words_only ascii_unicode (str "it's")).
  reflexivity.
Defined.

End CleanFacts.

(* ================================================================== *)
(** * TextPreprocessor: the shape of a summary *)
(* ================================================================== *)

Module SummaryShape.
Import Py PyFacts StringFacts TextPreprocessor SummaryFacts TokenizerFacts.
Import Examples.

Lemma slice_to_nonnegative {A} (l : list A) (k : Z) :
  (0 <= k)%Z -> slice_to l k = firstn (Z.to_nat k) l.
Proof.
  intros Hk. rewrite slice_to_firstn. unfold clamp_index.
  destruct (Z.ltb_spec k 0) as [|_]; [lia|].
  destruct (Z.le_gt_cases k (Z.of_nat (List.length l))) as [Hle|Hgt].
  - now rewrite Z.min_l by exact Hle.
  - rewrite Z.min_r by lia. rewrite Nat2Z.id.
    rewrite firstn_all. symmetry. apply firstn_all2. lia.
Qed.

(** X21. On a text with a sentence, [create_summary] always appends the
    period: the summary is the sliced sentences joined by a period and a
    space, then a period, so that a sentence that ended with a bang or a
    question mark ends with a period in the summary.  For a count that is
    not negative the slice is the first [num_sentences] sentences, all of
    them when there are fewer. *)
Theorem create_summary_period (s : text) (num_sentences : Z) :
  tokenize_sentences s <> [] ->
  create_summary s num_sentences
  = join (str ". ") (slice_to (tokenize_sentences s) num_sentences)
    ++ [c_dot]
  /\ ((0 <= num_sentences)%Z ->
      slice_to (tokenize_sentences s) num_sentences
      = firstn (Z.to_nat num_sentences) (tokenize_sentences s)).
Proof.
  intros Hs. split; [|apply slice_to_nonnegative].
  unfold create_summary.
  destruct (tokenize_sentences s) as [|x0 l0] eqn:E; [congruence|].
  rewrite <- E.
  rewrite join_sentences_end; [reflexivity|].
  apply Forall_forall. intros x Hx. apply slice_to_In in Hx.
  now apply tokenize_sentences_spec in Hx.
Qed.

Lemma create_summary_period_witness :
  tokenize_sentences hi_bye <> []
  /\ (create_summary hi_bye 3
      = join (str ". ") (slice_to (tokenize_sentences hi_bye) 3) ++ [c_dot]
      /\ ((0 <= 3)%Z ->
          slice_to (tokenize_sentences hi_bye) 3
          = firstn (Z.to_nat 3) (tokenize_sentences hi_bye))).
Proof.
  assert (H : tokenize_sentences hi_bye <> []).
  { vm_compute. discriminate. }
  split; [exact H|].
  exact (create_summary_period hi_bye 3 H).
Defined.

(** X22. [create_summary] returns the empty string exactly on the texts
    without a sentence, those made of whitespace and terminators,
    whatever the count. *)
Theorem create_summary_empty (s : text) (num_sentences : Z) :
  create_summary s num_sentences = []
  <-> Forall (fun c => is_space c || is_terminator c = true) s.
Proof.
  rewrite <- (tokenize_sentences_nil s). split.
  - intros H. destruct (tokenize_sentences s) as [|x l] eqn:E;
      [reflexivity|]. exfalso.
    assert (Hne : tokenize_sentences s <> []) by (rewrite E; discriminate).
    destruct (create_summary_period s num_sentences Hne) as [Hp _].
    rewrite Hp in H. destruct (join _ _); discriminate H.
  - intros H. unfold create_summary. now rewrite H.
Qed.

End SummaryShape.

(* ================================================================== *)
(** * TextPreprocessor: more on the statistics *)
(* ================================================================== *)

Module StatisticsShape.
Import Py PyFacts Ranking CounterFacts TextPreprocessor TokenizerFacts.
Import Examples.

Lemma insert_desc_perm {K} (x : K * Z) (l : list (K * Z)) :
  Permutation (insert_desc x l) (x :: l).
Proof.
  induction l as [|y l IH]; simpl; [reflexivity|].
  destruct (snd x <? snd y)%Z; [|reflexivity].
  rewrite IH. apply perm_swap.
Qed.

Lemma sort_desc_perm {K} (l : list (K * Z)) : Permutation (sort_desc l) l.
Proof.
  induction l as [|x l IH]; simpl; [reflexivity|].
  rewrite insert_desc_perm. now constructor.
Qed.

Lemma sum_perm (l l' : list Z) : Permutation l l' -> sum l = sum l'.
Proof.
  induction 1 as [|x l l' H IH|x y l|l l' l'' H1 IH1 H2 IH2].
  - reflexivity.
  - now rewrite !sum_cons, IH.
  - rewrite !sum_cons. lia.
  - congruence.
Qed.

Lemma sum_app (l l' : list Z) : sum (l ++ l') = (sum l + sum l')%Z.
Proof.
  induction l as [|x l IH]; simpl app.
  - rewrite sum_nil. lia.
  - rewrite !sum_cons, IH. lia.
Qed.

Lemma sum_nonneg (l : list Z) : Forall (fun c => (0 <= c)%Z) l -> (0 <= sum l)%Z.
Proof.
  induction 1 as [|x l Hx Hl IH]; [rewrite sum_nil; lia|].
  rewrite sum_cons. lia.
Qed.

Section Top.
Variable K : Type.
Variable K_eq_dec : forall a b : K, {a = b} + {a <> b}.
Variable xs : list K.
Variable n : nat.

Let sorted : list (K * Z) := sort_desc (Counter K_eq_dec xs).

Lemma sorted_total : sum (values sorted) = Z.of_nat (List.length xs).
Proof.
  rewrite <- (Counter_sum K K_eq_dec xs). apply sum_perm.
  unfold values. apply Permutation_map. apply sort_desc_perm.
Qed.

Lemma sorted_NoDup : NoDup (keys sorted).
Proof.
  apply (Permutation_NoDup (l := keys (Counter K_eq_dec xs))).
  - unfold keys. apply Permutation_map. symmetry. apply sort_desc_perm.
  - apply Counter_NoDup.
Qed.

Lemma sorted_positive : Forall (fun c => (0 <= c)%Z) (values sorted).
Proof.
  unfold values. rewrite Forall_map. apply Forall_forall. intros [k c] H.
  apply sort_desc_In, Counter_In in H as [Hk ->]. simpl. lia.
Qed.

Lemma counter_distinct :
  List.length (Counter K_eq_dec xs) = List.length (nodup K_eq_dec xs).
Proof.
  rewrite <- (length_map fst). fold (keys (Counter K_eq_dec xs)).
  apply Permutation_length, NoDup_Permutation.
  - apply Counter_NoDup.
  - apply NoDup_nodup.
  - intros k. rewrite nodup_In. apply Counter_keys.
Qed.

(** The items of [most_common] have distinct keys; their counts sum to
    at most the number of elements counted, and to exactly that number
    when no more than [n] distinct elements occur. *)
Lemma most_common_total :
  NoDup (keys (most_common n (Counter K_eq_dec xs)))
  /\ (sum (values (most_common n (Counter K_eq_dec xs)))
      <= Z.of_nat (List.length xs))%Z
  /\ ((List.length (nodup K_eq_dec xs) <= n)%nat ->
      sum (values (most_common n (Counter K_eq_dec xs)))
      = Z.of_nat (List.length xs)
      /\ List.length (most_common n (Counter K_eq_dec xs))
         = List.length (nodup K_eq_dec xs)).
Proof.
  unfold most_common. fold sorted.
  pose proof sorted_total as Ht. pose proof sorted_NoDup as Hn.
  pose proof sorted_positive as Hp.
  rewrite <- (firstn_skipn n sorted) in Ht, Hn, Hp.
  unfold values, keys in Ht, Hn, Hp. rewrite map_app in Ht, Hn, Hp.
  rewrite sum_app in Ht. apply Forall_app in Hp as [_ Hp].
  apply sum_nonneg in Hp. split; [|split].
  - now apply NoDup_app_remove_r in Hn.
  - unfold values. lia.
  - intros Hd.
    assert (Hlen : (List.length sorted <= n)%nat).
    { unfold sorted. now rewrite sort_desc_length, counter_distinct. }
    rewrite (firstn_all2 sorted Hlen). split.
    + apply sorted_total.
    + unfold sorted. now rewrite sort_desc_length, counter_distinct.
Qed.
End Top.

(** X23. The words of [most_common_words] are distinct; their counts sum
    to at most [total_words], and to [total_words] when the text has at
    most ten distinct words, every one of which is then listed. *)
Theorem most_common_words_total (s : text) :
  NoDup (List.map fst (most_common_words (get_text_statistics s)))
  /\ (sum (List.map snd (most_common_words (get_text_statistics s)))
      <= Z.of_nat (total_words (get_text_statistics s)))%Z
  /\ ((List.length (nodup text_eq_dec (tokenize_words s)) <= 10)%nat ->
      sum (List.map snd (most_common_words (get_text_statistics s)))
      = Z.of_nat (total_words (get_text_statistics s))
      /\ List.length (most_common_words (get_text_statistics s))
         = List.length (nodup text_eq_dec (tokenize_words s))).
Proof.
  cbn [get_text_statistics most_common_words total_words].
  exact (most_common_total text text_eq_dec (tokenize_words s) 10).
Qed.

(** X24. The statistics of a text count no word exactly when they count
    no sentence, and exactly when [most_common_words] is empty. *)
Theorem statistics_empty (s : text) :
  (total_words (get_text_statistics s) = 0%nat
   <-> total_sentences (get_text_statistics s) = 0%nat)
  /\ (total_words (get_text_statistics s) = 0%nat
      <-> most_common_words (get_text_statistics s) = []).
Proof.
  cbn [get_text_statistics most_common_words total_words total_sentences].
  rewrite !length_zero_iff_nil. split.
  - apply no_words_iff_no_sentences.
  - split.
    + intros ->. reflexivity.
    + intros H. apply (f_equal (@List.length (text * Z))) in H.
      unfold most_common in H.
      rewrite length_firstn, (sort_desc_length text) in H.
      destruct (tokenize_words s) as [|w ws]; [reflexivity|]. exfalso.
      pose proof (Counter_keys text text_eq_dec (w :: ws) w) as Hk.
      destruct (Counter text_eq_dec (w :: ws)) as [|kv c];
        [|simpl in H; lia].
      apply Hk. now left.
Qed.

End StatisticsShape.

(* ================================================================== *)
(** * The text that the service analyses *)
(* ================================================================== *)

Module PipelineFacts.
Import Py PyFacts StringFacts TextPreprocessor NormalizeFacts SummaryFacts.
Import TokenizerFacts CleanFacts SummaryShape Examples.

Lemma terminator_cases (c : char) :
  is_terminator c = true -> c = c_dot \/ c = c_bang \/ c = c_qmark.
Proof.
  unfold is_terminator. rewrite !orb_true_iff, !N.eqb_eq. tauto.
Qed.

Lemma ascii_terminators (c : char) :
  is_terminator c = true -> is_alnum ascii_unicode c = false.
Proof.
  intros H. apply terminator_cases in H as [->|[->| ->]]; reflexivity.
Qed.

Lemma ascii_lower_plain (t : text) :
  Forall plain t -> Forall plain (lower ascii_unicode t).
Proof.
  intros H. simpl. rewrite Forall_map. revert H. apply Forall_impl.
  intros c Hc. unfold plain in *. unfold ascii_lower_char.
  destruct ((65 <=? c) && (c <=? 90))%N eqn:E; [|exact Hc].
  apply andb_true_iff in E as [E1 E2]. apply N.leb_le in E1, E2.
  unfold is_terminator. rewrite !orb_false_iff, !N.eqb_neq.
  unfold c_dot, c_bang, c_qmark. lia.
Qed.

Section Pipeline.
Variable U : unicode.
Hypothesis terminators_not_alnum :
  forall c : char, is_terminator c = true -> is_alnum U c = false.
Hypothesis lower_plain :
  forall t : text, Forall plain t -> Forall plain (lower U t).

Lemma word_plain (c : char) : is_word U c = true -> plain c.
Proof.
  unfold plain. intros Hw. destruct (is_terminator c) eqn:E; [|reflexivity].
  unfold is_word in Hw. rewrite (terminators_not_alnum c E) in Hw.
  apply terminator_cases in E as [->|[->| ->]]; discriminate Hw.
Qed.

Lemma clean_text_plain (s : text) : Forall plain (clean_text U s).
Proof.
  apply Forall_forall. intros c Hc.
  apply clean_text_chars in Hc as [Hc| ->]; [now apply word_plain|].
  reflexivity.
Qed.

(** Normalization puts no terminator into a text that has none. *)
Lemma normalize_text_plain (s : text) :
  Forall plain s -> Forall plain (normalize_text U s true).
Proof.
  intros H. rewrite normalize_text_steps.
  apply strip_Forall, collapse_from_Forall; [reflexivity|].
  unfold blank_punctuation, standardized, standardize_dashes,
    standardize_squotes, standardize_dquotes.
  rewrite !Forall_map. apply lower_plain in H. revert H.
  apply Forall_impl. intros c Hc.
  match goal with |- plain (if ?b then _ else _) => destruct b end;
    [|reflexivity].
  destruct ((c =? c_dquote) || (c =? c_dquote))%N;
    [|destruct ((c =? c_lsquote) || (c =? c_rsquote))%N];
    try reflexivity;
    destruct ((c =? c_emdash) || (c =? c_endash))%N;
    try reflexivity; exact Hc.
Qed.

End Pipeline.

(** X25. The text the service analyses is [normalize_text] of
    [clean_text] of the document: over a database in which the
    terminators are not alphanumeric and [lower] puts no terminator in a
    text without one, it holds no terminator.  It is then at most one
    sentence, and the summary is that whole text followed by a period. *)
Theorem cleaned_text_one_sentence (U : unicode) (raw : text) :
  (forall c : char, is_terminator c = true -> is_alnum U c = false) ->
  (forall t : text,
     Forall (fun c => is_terminator c = false) t ->
     Forall (fun c => is_terminator c = false) (lower U t)) ->
  Forall (fun c => is_terminator c = false)
    (normalize_text U (clean_text U raw) true)
  /\ tokenize_sentences (normalize_text U (clean_text U raw) true)
     = (if nonempty (normalize_text U (clean_text U raw) true)
        then [normalize_text U (clean_text U raw) true] else [])
  /\ (total_sentences
        (get_text_statistics (normalize_text U (clean_text U raw) true))
      <= 1)%nat
  /\ create_summary (normalize_text U (clean_text U raw) true) 3
     = (if nonempty (normalize_text U (clean_text U raw) true)
        then normalize_text U (clean_text U raw) true ++ [c_dot] else []).
Proof.
  intros Ht Hl. set (t := normalize_text U (clean_text U raw) true).
  assert (Hp : Forall plain t).
  { apply (normalize_text_plain U Hl), (clean_text_plain U Ht). }
  assert (Hs : strip t = t)
    by apply (normalize_text_whitespace U (clean_text U raw) true).
  destruct (plain_text_coverage t Hp) as [E _]. rewrite Hs in E.
  split; [exact Hp|]. split; [exact E|]. split.
  - cbn [get_text_statistics total_sentences]. rewrite E.
    destruct (nonempty t); simpl; lia.
  - destruct t as [|c t'] eqn:Et.
    + reflexivity.
    + cbn [nonempty] in E |- *. rewrite <- Et in *.
      assert (Hne : tokenize_sentences t <> []) by (rewrite E; discriminate).
      destruct (create_summary_period t 3 Hne) as [Hc Hf].
      rewrite Hc, Hf by lia. rewrite E. reflexivity.
Qed.

Lemma cleaned_text_one_sentence_witness :
  ((forall c : char,
      is_terminator c = true -> is_alnum ascii_unicode c = false)
   /\ (forall t : text,
         Forall (fun c => is_terminator c = false) t ->
         Forall (fun c => is_terminator c = false) (lower ascii_unicode t)))
  /\ create_summary
       (normalize_text ascii_unicode (clean_text ascii_unicode hi_bye) true) 3
     = (if nonempty (normalize_text ascii_unicode
                       (clean_text ascii_unicode hi_bye) true)
        then normalize_text ascii_unicode
               (clean_text ascii_unicode hi_bye) true ++ [c_dot]
        else []).
Proof.
  split; [split; [exact ascii_terminators | exact ascii_lower_plain]|].
  apply (cleaned_text_one_sentence ascii_unicode hi_bye
           ascii_terminators ascii_lower_plain).
Defined.

End PipelineFacts.

(* ================================================================== *)
(** * TextPreprocessor: what the tokenizers keep *)
(* ================================================================== *)

Module ContentFacts.
Import Py PyFacts StringFacts TextPreprocessor SummaryFacts TokenizerFacts.
Import Examples.

(** The characters that are not whitespace. *)
Definition solid_chars (s : text) : text :=
  filter (fun c => negb (is_space c)) s.

Lemma solid_chars_app (a b : text) :
  solid_chars (a ++ b) = solid_chars a ++ solid_chars b.
Proof. apply filter_app. Qed.

Lemma solid_chars_spaces (p : text) : spaces p -> solid_chars p = [].
Proof.
  induction 1 as [|c p Hc Hp IH]; [reflexivity|].
  unfold solid_chars in *. simpl. now rewrite Hc.
Qed.

Lemma solid_chars_solid (w : text) :
  Forall (fun c => is_space c = false) w -> solid_chars w = w.
Proof.
  intros H. apply filter_all. revert H. apply Forall_impl.
  intros c Hc. now rewrite Hc.
Qed.

Lemma solid_chars_strip (s : text) : solid_chars (strip s) = solid_chars s.
Proof.
  destruct (strip_decompose s) as [p [q [E [Hp Hq]]]].
  rewrite E at 2. rewrite !solid_chars_app.
  rewrite (solid_chars_spaces p Hp), (solid_chars_spaces q Hq).
  now rewrite app_nil_r.
Qed.

Lemma split_ws_from_concat (s cur : text) :
  Forall (fun c => is_space c = false) cur ->
  List.concat (split_ws_from cur s) = rev cur ++ solid_chars s.
Proof.
  revert cur; induction s as [|c s IH]; intros cur Hcur; simpl.
  - destruct cur; simpl; now rewrite ?app_nil_r.
  - unfold solid_chars. simpl. fold (solid_chars s).
    destruct (is_space c) eqn:E; simpl.
    + destruct cur as [|a cur].
      * now rewrite IH by constructor.
      * simpl List.concat. now rewrite IH by constructor.
    + rewrite IH by (now constructor). simpl rev.
      now rewrite <- app_assoc.
Qed.

Lemma filter_filter {A} (f g : A -> bool) (l : list A) :
  filter f (filter g l) = filter (fun x => g x && f x) l.
Proof.
  induction l as [|x l IH]; simpl; [reflexivity|].
  destruct (g x); simpl; [destruct (f x); now rewrite IH | exact IH].
Qed.

(** X27. The words of [tokenize_words], put end to end, are the
    characters of the text that are neither whitespace nor terminators,
    in order: no such character is lost or added. *)
Theorem tokenize_words_content (s : text) :
  List.concat (tokenize_words s)
  = filter (fun c => negb (is_space c || is_terminator c)) s.
Proof.
  rewrite (proj2 (tokenize_words_shape s)). unfold split_ws.
  rewrite split_ws_from_concat by constructor. simpl app.
  unfold solid_chars. rewrite filter_filter. apply filter_ext.
  intros c. destruct (is_space c), (is_terminator c); reflexivity.
Qed.

Lemma re_split_from_concat (s : text) (in_run : bool) (cur : text) :
  List.concat (re_split_from in_run cur s)
  = rev cur ++ filter (fun c => negb (is_terminator c)) s.
Proof.
  revert in_run cur; induction s as [|c s IH]; intros in_run cur; simpl.
  - reflexivity.
  - destruct (is_terminator c) eqn:E; simpl.
    + destruct in_run.
      * apply IH.
      * simpl. now rewrite IH.
    + rewrite IH. simpl rev. now rewrite <- app_assoc.
Qed.

Lemma solid_chars_concat (ps : list text) :
  solid_chars
    (List.concat
       (List.map strip (filter (fun p => nonempty (strip p)) ps)))
  = solid_chars (List.concat ps).
Proof.
  induction ps as [|p ps IH]; [reflexivity|].
  cbn [filter List.concat]. rewrite solid_chars_app.
  destruct (strip p) as [|c t] eqn:E.
  - cbn [nonempty]. rewrite IH.
    apply (proj1 (strip_nil p)) in E.
    now rewrite (solid_chars_spaces p E).
  - cbn [nonempty List.map List.concat]. rewrite solid_chars_app, IH.
    f_equal. rewrite E. rewrite <- E. apply solid_chars_strip.
Qed.

(** X28. The sentences of [tokenize_sentences] carry, in order, every
    character of the text that is neither whitespace nor a terminator,
    and no other such character: these are the characters of the words
    of [tokenize_words]. *)
Theorem tokenize_sentences_content (s : text) :
  filter (fun c => negb (is_space c)) (List.concat (tokenize_sentences s))
  = filter (fun c => negb (is_space c || is_terminator c)) s
  /\ filter (fun c => negb (is_space c)) (List.concat (tokenize_sentences s))
     = List.concat (tokenize_words s).
Proof.
  assert (E : filter (fun c => negb (is_space c))
                (List.concat (tokenize_sentences s))
              = filter (fun c => negb (is_space c || is_terminator c)) s).
  { unfold tokenize_sentences, re_split_terminators.
    fold (solid_chars
            (List.concat
               (List.map strip
                  (filter (fun p => nonempty (strip p))
                     (re_split_from false [] s))))).
    rewrite solid_chars_concat, re_split_from_concat. simpl app.
    unfold solid_chars. rewrite filter_filter. apply filter_ext.
    intros c. destruct (is_space c), (is_terminator c); reflexivity. }
  split; [exact E|]. now rewrite tokenize_words_content.
Qed.

End ContentFacts.
